(** * gopass: the gpg command-line wrapper ([gpg/cli/gpg.go])

    A shallow embedding of the wrapper around the external OpenPGP tool:
    key listing with its two instance caches, recipient extraction from a
    packet dump, decrypt / encrypt / export / import, and the two
    patterns used to take a user id apart.

    Go strings and byte slices are byte sequences: they are modelled as
    [string], whose characters are the 256 values of [ascii].  A Go
    [error] value is [option error], [None] being [nil].  Every method
    has a pointer receiver, so the wrapper object lives in the state that
    the operations thread, next to the outside world (processes, files)
    and a log of the calls made to it. *)

From Stdlib Require Import String Ascii List ZArith NArith Bool Lia.
From stdpp Require Import base gmap strings list.
Import ListNotations.

Local Open Scope string_scope.
Local Open Scope list_scope.

(* ===================================================================== *)
(** ** Go string primitives *)
(* ===================================================================== *)

Module GoString.

Definition LF : ascii := "010"%char.
Definition CR : ascii := "013"%char.

Definition byte (n : nat) : ascii := ascii_of_nat n.

Fixpoint bytes (l : list nat) : string :=
  match l with
  | [] => EmptyString
  | n :: l' => String (byte n) (bytes l')
  end.

Fixpoint rev_onto (s acc : string) : string :=
  match s with
  | EmptyString => acc
  | String c s' => rev_onto s' (String c acc)
  end.

Definition rev (s : string) : string := rev_onto s EmptyString.

(** [strings.HasPrefix] / [bytes.HasPrefix]. *)
Fixpoint HasPrefix (s p : string) {struct p} : bool :=
  match p with
  | EmptyString => true
  | String b p' =>
      match s with
      | EmptyString => false
      | String a s' => if Ascii.eqb a b then HasPrefix s' p' else false
      end
  end.

(** [bytes.Contains] / [strings.Contains]: [sub] occurs somewhere in [s]. *)
Fixpoint Contains (s sub : string) : bool :=
  if HasPrefix s sub then true
  else match s with
       | EmptyString => false
       | String _ s' => Contains s' sub
       end.

(** What is left of [s] after its prefix [p], when it has that prefix. *)
Fixpoint CutPrefix (s p : string) {struct p} : option string :=
  match p with
  | EmptyString => Some s
  | String b p' =>
      match s with
      | EmptyString => None
      | String a s' => if Ascii.eqb a b then CutPrefix s' p' else None
      end
  end.

(** The UTF-8 encodings of the code points for which [unicode.IsSpace]
    holds: the six ASCII ones, U+0085, U+00A0, U+1680, U+2000..U+200A,
    U+2028, U+2029, U+202F, U+205F and U+3000.  A rune that
    [utf8.DecodeRune] reads off the front of a string is one of these
    code points exactly when the string starts with its encoding
    (over-long and truncated forms decode to [RuneError], which is no
    space), and likewise for [utf8.DecodeLastRune] and the end. *)
Definition spaceRunes : list string :=
  map bytes
    [ [9]; [10]; [11]; [12]; [13]; [32];
      [194; 133]; [194; 160];
      [225; 154; 128];
      [226; 128; 128]; [226; 128; 129]; [226; 128; 130]; [226; 128; 131];
      [226; 128; 132]; [226; 128; 133]; [226; 128; 134]; [226; 128; 135];
      [226; 128; 136]; [226; 128; 137]; [226; 128; 138];
      [226; 128; 168]; [226; 128; 169]; [226; 128; 175];
      [226; 129; 159];
      [227; 128; 128] ].

(** Drops one leading rune from [s] when it is one of [runes]. *)
Fixpoint cutRune (runes : list string) (s : string) : option string :=
  match runes with
  | [] => None
  | r :: rs =>
      match CutPrefix s r with
      | Some s' => Some s'
      | None => cutRune rs s
      end
  end.

Fixpoint trimLeftLoop (fuel : nat) (runes : list string) (s : string) : string :=
  match fuel with
  | O => s
  | S fuel' =>
      match cutRune runes s with
      | Some s' => trimLeftLoop fuel' runes s'
      | None => s
      end
  end.

(** [strings.TrimLeftFunc s unicode.IsSpace]: every cut removes at
    least one byte, so [String.length s] rounds are enough. *)
Definition TrimLeftSpace (s : string) : string :=
  trimLeftLoop (String.length s) spaceRunes s.

(** [strings.TrimRightFunc s unicode.IsSpace], on the reversed bytes. *)
Definition TrimRightSpace (s : string) : string :=
  rev (trimLeftLoop (String.length s) (map rev spaceRunes) (rev s)).

(** [strings.TrimSpace]: its ASCII fast path and its fall-back to
    [TrimFunc] compute the same slice, leading white space off first,
    trailing white space second. *)
Definition TrimSpace (s : string) : string :=
  TrimRightSpace (TrimLeftSpace s).

(** [strings.Join]. *)
Fixpoint Join (l : list string) (sep : string) : string :=
  match l with
  | [] => EmptyString
  | [x] => x
  | x :: l' => x +:+ sep +:+ Join l' sep
  end.

(** [strings.Split s (String sep "")] for a one-byte separator: always
    at least one piece. *)
Fixpoint SplitByte (sep : ascii) (s : string) : list string :=
  match s with
  | EmptyString => [EmptyString]
  | String c s' =>
      if Ascii.eqb c sep then EmptyString :: SplitByte sep s'
      else match SplitByte sep s' with
           | [] => [String c EmptyString]
           | p :: ps => String c p :: ps
           end
  end.

(** Cuts [s] at the first [sep]: the text before it and the text after
    it, or nothing when [sep] does not occur. *)
Fixpoint CutByte (sep : ascii) (s : string) : option (string * string) :=
  match s with
  | EmptyString => None
  | String c s' =>
      if Ascii.eqb c sep then Some (EmptyString, s')
      else match CutByte sep s' with
           | Some (a, b) => Some (String c a, b)
           | None => None
           end
  end.

End GoString.

(* ===================================================================== *)
(** ** [bufio.Scanner] with the default split function [bufio.ScanLines] *)
(* ===================================================================== *)

Module Scanner.
Import GoString.

(** [bufio.MaxScanTokenSize]: the scanner's buffer grows to this many
    bytes and no further. *)
Definition MaxScanTokenSize : N := 65536.

(** [dropCR]: one trailing carriage return is not part of a line. *)
Fixpoint dropCR (s : string) : string :=
  match s with
  | EmptyString => EmptyString
  | String c EmptyString => if Ascii.eqb c CR then EmptyString else s
  | String c s' => String c (dropCR s')
  end.

(** The tokens that successive [Scan] calls hand out for the input
    [s], read from memory.  [cur] holds the [n] bytes of the line under
    way.  A newline ends the line.  When the buffer is full
    ([MaxScanTokenSize] bytes from the start of the line, none of them
    a newline) [Scan] records [ErrTooLong] and returns false, now and
    ever after.  At the end of the input a last line without a newline
    is a token when it is not empty. *)
Fixpoint scan (s cur : string) (n : N) : list string :=
  match s with
  | EmptyString => if (n =? 0)%N then [] else [dropCR cur]
  | String c s' =>
      if Ascii.eqb c LF then dropCR cur :: scan s' EmptyString 0%N
      else if (MaxScanTokenSize <=? n + 1)%N then []
      else scan s' (cur +:+ String c EmptyString) (n + 1)%N
  end.

Definition Lines (s : string) : list string := scan s EmptyString 0%N.




End Scanner.

(* ===================================================================== *)
(** ** Errors, commands and the outside world *)
(* ===================================================================== *)

(** The error values that reach the wrapper, and the two constructors of
    [github.com/pkg/errors] it uses.  [Wrapf cause msg] is an error that
    carries [msg] as context in front of its [cause]. *)
Inductive error : Type :=
| ExitError (code : Z)
| ExecError (name msg : string)
| CtxError (msg : string)
| PathError (op path msg : string)
| Errorf (msg : string)
| Wrapf (cause : error) (msg : string).

(** Where a standard stream of a child process goes. *)
Inductive Stream : Type :=
| Unset
| OsStdout
| OsStderr
| Buffer.

(** [exec.Cmd], as far as the wrapper fills it in. *)
Record Cmd : Type := mkCmd {
  Path : string;
  Args : list string;
  Stdin : option string;
  Stdout : Stream;
  Stderr : Stream
}.

(** What running a command gives back: the bytes collected in the
    buffer(s) of the command and the error of [Run]. *)
Record ProcResult : Type := mkProcResult {
  captured : string;
  status : option error
}.

(** The external collaborators: the child process and the file system.
    They answer from a world of their own, which they may change. *)
Class External : Type := {
  World : Type;
  start : Cmd -> World -> ProcResult * World;
  readFile : string -> World -> string * option error;
  writeFile : string -> string -> Z -> World -> option error * World;
  mkdirAll : string -> Z -> World -> option error * World;
  setenv : string -> string -> World -> World;
  filepathDir : string -> string
}.

(** A Go slice value is [nil] or holds elements. *)
Inductive GoSlice (A : Type) : Type :=
| SliceNil
| Slice (elems : list A).
Arguments SliceNil {A}.
Arguments Slice {A} elems.

Definition isNil {A} (s : GoSlice A) : bool :=
  match s with
  | SliceNil => true
  | Slice _ => false
  end.

(** The parts of the package that live in other files: the key model of
    package [gpg], the colon-record parser and the packet-line splitter.
    The operations below are stated over any such parsers. *)
Class Parsers : Type := {
  Key : Type;
  parseColons : string -> GoSlice Key;
  splitPacket : string -> gmap string string
}.

(** [gpg.KeyList] *)
Abbreviation KeyList := (GoSlice Key).

Definition fileMode : Z := 384.   (* 0600 *)
Definition dirPerm : Z := 448.    (* 0700 *)

(** [defaultArgs]: no [--batch], which would disable passphrase questions. *)
Definition defaultArgs : list string :=
  [ "--quiet"; "--yes"; "--compress-algo=none"; "--no-encrypt-to";
    "--no-auto-check-trustdb" ].

(** The calls made to the outside, in the order they were made. *)
Inductive Event : Type :=
| EvStart (c : Cmd)
| EvReadFile (name : string)
| EvWriteFile (name data : string) (perm : Z)
| EvMkdirAll (path : string) (perm : Z)
| EvSetenv (key value : string).

Section Model.
Context {Ext : External} {Par : Parsers}.

(** [GPG] is a gpg wrapper. *)
Record GPG : Type := mkGPG {
  binary : string;
  args : list string;
  pubKeys : KeyList;
  privKeys : KeyList;
  alwaysTrust : bool
}.

Definition set_pubKeys (g : GPG) (kl : KeyList) : GPG :=
  mkGPG (binary g) (args g) kl (privKeys g) (alwaysTrust g).

Definition set_privKeys (g : GPG) (kl : KeyList) : GPG :=
  mkGPG (binary g) (args g) (pubKeys g) kl (alwaysTrust g).

(** The state the operations run in: the wrapper instance behind the
    receiver pointer, the outside world and the log of calls. *)
Record State : Type := mkState {
  gpg : GPG;
  world : World;
  trace : list Event
}.

Definition M (A : Type) : Type := State -> A * State.

Definition ret {A} (a : A) : M A := fun st => (a, st).

Definition bind {A B} (m : M A) (k : A -> M B) : M B :=
  fun st => let (a, st') := m st in k a st'.

Definition receiver : M GPG := fun st => (gpg st, st).

Definition assign (f : GPG -> GPG) : M unit :=
  fun st => (tt, mkState (f (gpg st)) (world st) (trace st)).

Definition emit (e : Event) (st : State) (w : World) : State :=
  mkState (gpg st) w (trace st ++ [e]).

(** [exec.CommandContext ctx name arg...]: the cancellation that [ctx]
    may bring is one of the ways in which running the command fails.
    [name] is the wrapper's [binary], which [New] has looked up already,
    so [Path] is that name.  The [ctxutil.IsDebug] branches only print a
    diagnostic line and are left out. *)
Definition CommandContext (name : string) (arg : list string) : Cmd :=
  mkCmd name (name :: arg) None Unset Unset.

Definition withStdin (c : Cmd) (b : string) : Cmd :=
  mkCmd (Path c) (Args c) (Some b) (Stdout c) (Stderr c).

Definition withStdout (c : Cmd) (s : Stream) : Cmd :=
  mkCmd (Path c) (Args c) (Stdin c) s (Stderr c).

Definition withStderr (c : Cmd) (s : Stream) : Cmd :=
  mkCmd (Path c) (Args c) (Stdin c) (Stdout c) s.

(** [cmd.Run] *)
Definition Run (c : Cmd) : M (option error) :=
  fun st =>
    let (r, w) := start c (world st) in
    (status r, emit (EvStart c) st w).

(** [cmd.Output]: standard output goes to a buffer. *)
Definition Output (c : Cmd) : M (string * option error) :=
  fun st =>
    let c' := withStdout c Buffer in
    let (r, w) := start c' (world st) in
    ((captured r, status r), emit (EvStart c') st w).

(** [cmd.CombinedOutput]: both streams go to one buffer. *)
Definition CombinedOutput (c : Cmd) : M (string * option error) :=
  fun st =>
    let c' := withStderr (withStdout c Buffer) Buffer in
    let (r, w) := start c' (world st) in
    ((captured r, status r), emit (EvStart c') st w).

Definition ReadFile (name : string) : M (string * option error) :=
  fun st => (readFile name (world st), emit (EvReadFile name) st (world st)).

Definition WriteFile (name data : string) (perm : Z) : M (option error) :=
  fun st =>
    let (e, w) := writeFile name data perm (world st) in
    (e, emit (EvWriteFile name data perm) st w).

Definition MkdirAll (path : string) (perm : Z) : M (option error) :=
  fun st =>
    let (e, w) := mkdirAll path perm (world st) in
    (e, emit (EvMkdirAll path perm) st w).

Definition Setenv (key value : string) : M unit :=
  fun st => (tt, emit (EvSetenv key value) st (setenv key value (world st))).

End Model.

Notation "'let*' x ':=' m 'in' k" := (bind m (fun x => k))
  (at level 10, x name, m at level 100, k at level 200, only parsing).
Notation "'let*' ' pat ':=' m 'in' k" := (bind m (fun pat => k))
  (at level 10, pat pattern, m at level 100, k at level 200, only parsing).
Notation "'do' m 'in' k" := (bind m (fun _ => k))
  (at level 10, m at level 100, k at level 200, only parsing).

Section Operations.
Context {Ext : External} {Par : Parsers}.
Import GoString.

(** The [%+v] rendering of a string slice. *)
Definition fmtArgs (l : list string) : string := "[" +:+ Join l " " +:+ "]".

Definition noSecretKey : string := "secret key not available".

(** [listKeys] lists all keys of the given type and matching the search
    strings. *)
Definition listKeys (typ : string) (search : list string)
  : M (KeyList * option error) :=
  let* g := receiver in
  let args := [ "--with-colons"; "--with-fingerprint"; "--fixed-list-mode";
                "--list-" +:+ typ +:+ "-keys" ] ++ search in
  let cmd := withStderr (CommandContext (binary g) args) OsStderr in
  let* '(out, err) := Output cmd in
  match err with
  | Some e =>
      if Contains out noSecretKey then ret (Slice [], None)
      else ret (Slice [], Some e)
  | None => ret (parseColons out, None)
  end.

(** [ListPublicKeys] returns a parsed list of GPG public keys. *)
Definition ListPublicKeys : M (KeyList * option error) :=
  let* g := receiver in
  if isNil (pubKeys g) then
    let* '(kl, err) := listKeys "public" [] in
    match err with
    | Some e => ret (SliceNil, Some e)
    | None =>
        do assign (fun g => set_pubKeys g kl) in
        let* g := receiver in
        ret (pubKeys g, None)
    end
  else ret (pubKeys g, None).

(** [FindPublicKeys] searches for the given public keys. *)
Definition FindPublicKeys (search : list string) : M (KeyList * option error) :=
  listKeys "public" search.

(** [ListPrivateKeys] returns a parsed list of GPG secret keys. *)
Definition ListPrivateKeys : M (KeyList * option error) :=
  let* g := receiver in
  if isNil (privKeys g) then
    let* '(kl, err) := listKeys "secret" [] in
    match err with
    | Some e => ret (SliceNil, Some e)
    | None =>
        do assign (fun g => set_privKeys g kl) in
        let* g := receiver in
        ret (privKeys g, None)
    end
  else ret (privKeys g, None).

(** [FindPrivateKeys] searches for the given private keys. *)
Definition FindPrivateKeys (search : list string) : M (KeyList * option error) :=
  listKeys "secret" search.

Definition pubkeyEncMarker : string := ":pubkey enc packet:".

(** One round of the scanning loop of [GetRecipients]: [recp] before
    and after the token [text]. *)
Definition recipientStep (recp : list string) (text : string) : list string :=
  let line := TrimSpace text in
  if negb (HasPrefix line pubkeyEncMarker) then recp
  else
    let m := splitPacket line in
    match m !! "keyid" with
    | Some keyid => recp ++ [keyid]
    | None => recp
    end.

(** [GetRecipients] returns a list of recipient IDs for a given file. *)
Definition GetRecipients (file : string) : M (list string * option error) :=
  do Setenv "LANGUAGE" "C" in
  let recp : list string := [] in
  let* g := receiver in
  let args := [ "--batch"; "--list-only"; "--list-packets";
                "--no-default-keyring"; "--secret-keyring"; "/dev/null"; file ] in
  let cmd := CommandContext (binary g) args in
  let* '(out, err) := CombinedOutput cmd in
  match err with
  | Some e => ret ([], Some e)
  | None => ret (fold_left recipientStep (Scanner.Lines out) recp, None)
  end.

(** [Encrypt] will encrypt the given content for the recipients. *)
Definition Encrypt (path content : string) (recipients : list string)
  : M (option error) :=
  let* mk := MkdirAll (filepathDir path) dirPerm in
  match mk with
  | Some e => ret (Some (Wrapf e ("failed to create dir '" +:+ path +:+ "'")))
  | None =>
      let* g := receiver in
      let args := args g ++ [ "--encrypt"; "--output"; path ] in
      let args := if alwaysTrust g then args ++ [ "--trust-model=always" ] else args in
      let args := fold_left (fun a r => a ++ [ "--recipient"; r ]) recipients args in
      let cmd := CommandContext (binary g) args in
      let cmd := withStderr (withStdout (withStdin cmd content) OsStdout) OsStderr in
      Run cmd
  end.

(** [Decrypt] will try to decrypt the given file. *)
Definition Decrypt (path : string) : M (string * option error) :=
  let* g := receiver in
  let args := args g ++ [ "--decrypt"; path ] in
  let cmd := CommandContext (binary g) args in
  Output cmd.

(** [ExportPublicKey] will export the named public key to the location
    given. *)
Definition ExportPublicKey (id filename : string) : M (option error) :=
  let* g := receiver in
  let args := args g ++ [ "--armor"; "--export"; id ] in
  let cmd := CommandContext (binary g) args in
  let* '(out, err) := Output cmd in
  match err with
  | Some e =>
      ret (Some (Wrapf e ("failed to run command '" +:+ Path cmd +:+ " "
                            +:+ fmtArgs (Args cmd) +:+ "'")))
  | None =>
      if (String.length out <? 1)%nat then ret (Some (Errorf "Key not found"))
      else WriteFile filename out fileMode
  end.

(** [ImportPublicKey] will import a key from the given location. *)
Definition ImportPublicKey (filename : string) : M (option error) :=
  let* '(buf, err) := ReadFile filename in
  match err with
  | Some e => ret (Some (Wrapf e ("failed to read file '" +:+ filename +:+ "'")))
  | None =>
      let* g := receiver in
      let args := args g ++ [ "--import" ] in
      let cmd := CommandContext (binary g) args in
      let cmd := withStderr (withStdout (withStdin cmd buf) OsStdout) OsStderr in
      let* err := Run cmd in
      match err with
      | Some e =>
          ret (Some (Wrapf e ("failed to run command: '" +:+ Path cmd +:+ " "
                                +:+ fmtArgs (Args cmd) +:+ "'")))
      | None =>
          (* clear key cache *)
          do assign (fun g => set_privKeys g SliceNil) in
          do assign (fun g => set_pubKeys g SliceNil) in
          ret None
      end
  end.

End Operations.

(* ===================================================================== *)
(** ** The two user-id patterns *)
(* ===================================================================== *)

Module UID.
Import GoString.

(** The character classes that occur in the patterns.  [\s] is the
    class [[\t\n\f\r ]] of Go's regexp syntax.  The patterns are matched
    byte by byte: their only literals and class members are ASCII, a
    negated class takes every byte of a multi-byte rune, and a match
    starts as far left as it can, so the spans are those of matching
    rune by rune. *)
Inductive class : Type :=
| NoneOf (l : list ascii)
| Space.

Definition inClass (k : class) (c : ascii) : bool :=
  match k with
  | NoneOf l => negb (existsb (Ascii.eqb c) l)
  | Space => existsb (Ascii.eqb c) [byte 9; byte 10; byte 12; byte 13; byte 32]
  end.

(** The fragment of the regexp syntax the patterns are written in: a
    literal byte, [k+] for a class [k], concatenation, and a capturing
    group. *)
Inductive regex : Type :=
| Lit (c : ascii)
| Plus (k : class)
| Seq (r1 r2 : regex)
| Group (r : regex).

Infix ">>" := Seq (at level 41, right associativity).

(** [reUIDComment = `([^(<]+)\s+(\([^)]+\))\s+<([^>]+)>`] *)
Definition reUIDComment : regex :=
  Group (Plus (NoneOf ["("%char; "<"%char])) >>
  Plus Space >>
  Group (Lit "(" >> Plus (NoneOf [")"%char]) >> Lit ")") >>
  Plus Space >>
  Lit "<" >> Group (Plus (NoneOf [">"%char])) >> Lit ">".

(** [reUID = `([^(<]+)\s+<([^>]+)>`] *)
Definition reUID : regex :=
  Group (Plus (NoneOf ["("%char; "<"%char])) >>
  Plus Space >>
  Lit "<" >> Group (Plus (NoneOf [">"%char])) >> Lit ">".

Section Matcher.
Context {R : Type}.

(** [k+] in front of [s], greedy: as many bytes as the rest of the
    match, [kont], allows, and one at least. *)
Fixpoint plus (k : class) (s : string) (kont : string -> option R) : option R :=
  match s with
  | EmptyString => None
  | String c s' =>
      if inClass k c then
        match plus k s' kont with
        | Some r => Some r
        | None => kont s'
        end
      else None
  end.

(** The bytes of [s] in front of its suffix [s']. *)
Definition consumed (s s' : string) : string :=
  substring 0 (String.length s - String.length s') s.

(** The backtracking match of [r] in front of [s]: the first way to
    match for which the continuation succeeds, alternatives tried in
    the order of Go's leftmost-first semantics.  [caps] are the
    groups closed so far. *)
Fixpoint exec (r : regex) (s : string) (caps : list string)
         (kont : string -> list string -> option R) : option R :=
  match r with
  | Lit c =>
      match s with
      | EmptyString => None
      | String c' s' => if Ascii.eqb c' c then kont s' caps else None
      end
  | Plus k => plus k s (fun s' => kont s' caps)
  | Seq r1 r2 => exec r1 s caps (fun s' caps' => exec r2 s' caps' kont)
  | Group r1 =>
      exec r1 s caps (fun s' caps' => kont s' (caps' ++ [consumed s s']))
  end.
End Matcher.

(** [re.FindStringSubmatch s]: the leftmost match and its groups, the
    whole match first; [None] is the nil slice of no match. *)
Fixpoint FindStringSubmatch (r : regex) (s : string) : option (list string) :=
  match exec r s [] (fun s' caps => Some (consumed s s' :: caps)) with
  | Some m => Some m
  | None =>
      match s with
      | EmptyString => None
      | String _ s' => FindStringSubmatch r s'
      end
  end.

(** [gpg.Identity], the parsed fields. *)
Record Identity : Type := mkIdentity {
  Name : string;
  Comment : string;
  Email : string
}.

(** The text between the first and the last byte of [s]. *)
Definition inner (s : string) : string :=
  substring 1 (String.length s - 2) s.

(** Modelled from the spec: the function that applies [reUIDComment]
    and [reUID] to a [uid] record is part of the colon-record parser,
    which is not in [gpg.go].  The spec has the pattern
    "name (comment) <email>" tried first, then "name <email>", and the
    whole string as the name when neither matches; the comment is the
    text inside the parentheses that the second group spans. *)
Definition parseUID (uid : string) : Identity :=
  match FindStringSubmatch reUIDComment uid with
  | Some [_; n; c; e] => mkIdentity n (inner c) e
  | _ =>
      match FindStringSubmatch reUID uid with
      | Some [_; n; e] => mkIdentity n EmptyString e
      | _ => mkIdentity uid EmptyString EmptyString
      end
  end.

(** [a] is a run of one or more bytes of the class [k]. *)
Definition runOf (k : class) (a : string) : Prop :=
  a <> EmptyString /\
  Forall (fun c => inClass k c = true) (list_ascii_of_string a).

(** What it is for [a] to match [r]: [c1] is [c0] followed by the texts
    of the groups of [r], in the order in which they close. *)
Inductive Matches : regex -> string -> list string -> list string -> Prop :=
| MLit c c0 : Matches (Lit c) (String c EmptyString) c0 c0
| MPlus k a c0 : runOf k a -> Matches (Plus k) a c0 c0
| MSeq r1 r2 a b c0 c1 c2 :
    Matches r1 a c0 c1 -> Matches r2 b c1 c2 ->
    Matches (Seq r1 r2) (a +:+ b) c0 c2
| MGroup r a c0 c1 :
    Matches r a c0 c1 -> Matches (Group r) a c0 (c1 ++ [a]).

(** Some part of [s] matches [r]. *)
Definition HasMatch (r : regex) (s : string) : Prop :=
  exists pre a post caps, s = pre +:+ a +:+ post /\ Matches r a [] caps.

End UID.

(* ===================================================================== *)
(** ** The packet-line splitter *)
(* ===================================================================== *)

Module PacketLine.
Import GoString.

(** Modelled from the spec: [splitPacket] is defined in another file of
    the package.  The spec has it map a line of space-separated tokens
    to the fields of the tokens of shape name=value, the tokens without
    [=] ignored, and never fail. *)
Definition splitPacket (line : string) : gmap string string :=
  fold_left
    (fun (m : gmap string string) tok =>
       match CutByte "=" tok with
       | Some (name, value) => <[name := value]> m
       | None => m
       end)
    (SplitByte " " line) ∅.

End PacketLine.

(* ===================================================================== *)
(** ** A scripted outside world *)
(* ===================================================================== *)

(** A test double for the external collaborators: the child processes
    answer from a script prepared in advance, one entry per run, and the
    file system is a list of named contents. *)
Module Stub.

Record W : Type := mkW {
  script : list ProcResult;
  files : list (string * string)
}.

Fixpoint find (name : string) (l : list (string * string)) : option string :=
  match l with
  | [] => None
  | (n, d) :: l' => if String.eqb n name then Some d else find name l'
  end.

Definition runScript (c : Cmd) (w : W) : ProcResult * W :=
  match script w with
  | [] => (mkProcResult EmptyString
             (Some (ExecError (Path c) "executable file not found in $PATH")), w)
  | r :: rs => (r, mkW rs (files w))
  end.

Definition readStub (name : string) (w : W) : string * option error :=
  match find name (files w) with
  | Some d => (d, None)
  | None => (EmptyString, Some (PathError "open" name "no such file or directory"))
  end.

Definition writeStub (name data : string) (perm : Z) (w : W) : option error * W :=
  (None, mkW (script w) ((name, data) :: files w)).

Definition mkdirStub (path : string) (perm : Z) (w : W) : option error * W :=
  (None, w).

#[export] Instance external : External := {|
  World := W;
  start := runScript;
  readFile := readStub;
  writeFile := writeStub;
  mkdirAll := mkdirStub;
  setenv := fun _ _ w => w;
  filepathDir := fun _ => "."
|}.

(** One key per line of output stands in for the colon-record parser. *)
#[export] Instance parsers : Parsers := {|
  Key := string;
  parseColons := fun out => Slice (Scanner.Lines out);
  splitPacket := PacketLine.splitPacket
|}.

Definition ok (out : string) : ProcResult := mkProcResult out None.
Definition failed (out : string) (code : Z) : ProcResult :=
  mkProcResult out (Some (ExitError code)).

Definition fresh : GPG := mkGPG "gpg" defaultArgs SliceNil SliceNil false.

Definition boot (g : GPG) (w : W) : State := mkState g w [].

Definition nl : string := String GoString.LF EmptyString.

(** A packet dump with two public-key encrypted session key packets. *)
Definition dumpTwo : string :=
  ":pubkey enc packet: version=3 algo=1 keyid=AAAA" +:+ nl +:+
  "  :pubkey enc packet: version=3 algo=1 keyid=BBBB" +:+ nl +:+
  ":encrypted data packet:" +:+ nl.

(** The inspection run prints [dumpTwo]. *)
Definition inspecting : State := boot fresh (mkW [ok dumpTwo] []).

(** The next run exits with status 2 and no output. *)
Definition failing : State := boot fresh (mkW [failed EmptyString 2] []).

(** The next run exits with status 2 and the no-secret-key message. *)
Definition keyless : State :=
  boot fresh
    (mkW [failed "gpg: error reading key: secret key not available" 2] []).

(** Two listing runs with different output. *)
Definition listing : State :=
  boot fresh (mkW [ok ("sec:u:4096" +:+ nl); ok ("sec:u:2048" +:+ nl)] []).

(** A wrapper with both caches filled. *)
Definition warm : GPG :=
  mkGPG "gpg" defaultArgs (Slice ["pub:old"]) (Slice ["sec:old"]) false.

(** An import that succeeds, followed by a listing run. *)
Definition importing : State :=
  boot warm (mkW [ok EmptyString; ok ("pub:new" +:+ nl)] [("key.asc", "KEY")]).

(** An import whose command fails. *)
Definition rejecting : State :=
  boot warm (mkW [failed EmptyString 2] [("key.asc", "KEY")]).

(** An export run that succeeds without output. *)
Definition exportingNothing : State := boot fresh (mkW [ok EmptyString] []).

End Stub.

(* ===================================================================== *)
(** ** Vocabulary of the statements *)
(* ===================================================================== *)

Section Vocabulary.
Context {Ext : External} {Par : Parsers}.
Import GoString.

(** The commands as they are handed to the child process. *)
Definition listCmd (g : GPG) (typ : string) (search : list string) : Cmd :=
  mkCmd (binary g)
    (binary g :: [ "--with-colons"; "--with-fingerprint"; "--fixed-list-mode";
                   "--list-" +:+ typ +:+ "-keys" ] ++ search)
    None Buffer OsStderr.

Definition inspectCmd (g : GPG) (file : string) : Cmd :=
  mkCmd (binary g)
    (binary g :: [ "--batch"; "--list-only"; "--list-packets";
                   "--no-default-keyring"; "--secret-keyring"; "/dev/null"; file ])
    None Buffer Buffer.

Definition decryptCmd (g : GPG) (path : string) : Cmd :=
  mkCmd (binary g) (binary g :: args g ++ [ "--decrypt"; path ]) None Buffer Unset.

Definition exportCmd (g : GPG) (id : string) : Cmd :=
  mkCmd (binary g) (binary g :: args g ++ [ "--armor"; "--export"; id ])
    None Buffer Unset.

Definition importCmd (g : GPG) (buf : string) : Cmd :=
  mkCmd (binary g) (binary g :: args g ++ [ "--import" ])
    (Some buf) OsStdout OsStderr.

Definition encryptCmd (g : GPG) (path content : string) (recipients : list string)
  : Cmd :=
  mkCmd (binary g)
    (binary g ::
       fold_left (fun a r => a ++ [ "--recipient"; r ]) recipients
         (if alwaysTrust g
          then (args g ++ [ "--encrypt"; "--output"; path ]) ++ [ "--trust-model=always" ]
          else args g ++ [ "--encrypt"; "--output"; path ]))
    (Some content) OsStdout OsStderr.

(** What one line contributes to the recipient list, in the words of
    the specification: the value of its [keyid] field when its trimmed
    text begins with the marker and its fields have a [keyid], and
    nothing otherwise. *)
Definition lineKeyid (text : string) : list string :=
  let line := TrimSpace text in
  if HasPrefix line pubkeyEncMarker then
    match splitPacket line !! "keyid" with
    | Some keyid => [keyid]
    | None => []
    end
  else [].

(** The recipient list of a sequence of lines: the contributions of the
    lines, in the order of the lines. *)
Definition keyidsOf (lines : list string) : list string :=
  flat_map lineKeyid lines.

(** The state after one call made to the outside. *)
Definition after (st : State) (w : World) (evs : list Event) : State :=
  mkState (gpg st) w (trace st ++ evs).

(** The processes started according to a log. *)
Definition started (tr : list Event) : list Cmd :=
  flat_map (fun e => match e with EvStart c => [c] | _ => [] end) tr.

(** The files written according to a log. *)
Definition written (tr : list Event) : list (string * string * Z) :=
  flat_map (fun e => match e with
                     | EvWriteFile n d p => [(n, d, p)]
                     | _ => []
                     end) tr.

End Vocabulary.

(** An error with context added by [errors.Wrapf] around its cause. *)
Definition carriesContext (e : error) : bool :=
  match e with
  | Wrapf _ _ => true
  | _ => false
  end.

(** An operation's error result is an error that carries context. *)
Definition failsWithContext (res : option error) : Prop :=
  exists e, res = Some e /\ carriesContext e = true.

(* ===================================================================== *)
(** ** The constructor [New] and [Version] *)
(* ===================================================================== *)

(** [Config] is the gpg wrapper config. *)
Module Config.

Record t : Type := mk {
  Binary : string;
  Args : list string;
  AlwaysTrust : bool
}.

End Config.

(** What [New] asks of its host besides the collaborators above:
    [exec.LookPath], which answers [Some p] when it finds the program
    and [None] when it returns an error, and [umask], which the package
    defines per platform in files of its own. *)
Class Host {Ext : External} : Type := {
  lookPath : string -> World -> option string;
  umask : Z -> World -> World
}.

(** [github.com/blang/semver]: the version type, its zero value and
    [semver.Parse]. *)
Class Semver : Type := {
  SemVersion : Type;
  semverZero : SemVersion;
  semverParse : string -> SemVersion * option error
}.

(** How a call ends: with a value, or in a run-time panic. *)
Inductive Outcome (A : Type) : Type :=
| Returns (a : A)
| Panics.
Arguments Returns {A} a.
Arguments Panics {A}.

Module GoFields.
Import GoString.

(** The width in bytes of the white-space rune in front of [s], zero
    when [s] does not start with one. *)
Definition spaceWidth (s : string) : nat :=
  match cutRune spaceRunes s with
  | Some s' => String.length s - String.length s'
  | None => 0
  end.

Definition flush (cur : option string) : list string :=
  match cur with
  | Some f => [f]
  | None => []
  end.

Definition extend (cur : option string) (c : ascii) : option string :=
  match cur with
  | Some f => Some (f +:+ String c EmptyString)
  | None => Some (String c EmptyString)
  end.

(** The loop of [strings.FieldsFunc s unicode.IsSpace]: [cur] is the
    field under way, [skip] the bytes still to pass of a white-space
    rune of several bytes. *)
Fixpoint fieldsLoop (s : string) (skip : nat) (cur : option string) : list string :=
  match s with
  | EmptyString => flush cur
  | String c s' =>
      match skip with
      | S k => fieldsLoop s' k cur
      | O =>
          match spaceWidth s with
          | O => fieldsLoop s' 0 (extend cur c)
          | S k => flush cur ++ fieldsLoop s' k None
          end
      end
  end.

(** [strings.Fields]: the maximal runs of bytes between white space. *)
Definition Fields (s : string) : list string := fieldsLoop s 0 None.

(** [p[len(p)-1]]: the last element, or nothing when the index is out of
    range. *)
Fixpoint lastOf (p : list string) : option string :=
  match p with
  | [] => None
  | [x] => Some x
  | _ :: p' => lastOf p'
  end.

End GoFields.

Section Construction.
Context {Ext : External} {Par : Parsers} {Hst : Host} {Sem : Semver}.
Import GoString GoFields.

Definition set_binary (g : GPG) (p : string) : GPG :=
  mkGPG p (args g) (pubKeys g) (privKeys g) (alwaysTrust g).

(** The loop of [New] over the candidate names: the first one that
    [exec.LookPath] finds sets [binary] and ends the loop. *)
Fixpoint lookupBinary (names : list string) (w : World) (g : GPG) : GPG :=
  match names with
  | [] => g
  | b :: rest =>
      match lookPath b w with
      | Some p => set_binary g p
      | None => lookupBinary rest w g
      end
  end.

(** [New] creates a new GPG wrapper. *)
Definition New (cfg : Config.t) (w : World) : GPG * World :=
  (* ensure created files don't have group or world perms set *)
  let w := umask 63 w in
  let cfgArgs :=
    if (length (Config.Args cfg) <? 1)%nat then defaultArgs else Config.Args cfg in
  let g := mkGPG "gpg" cfgArgs SliceNil SliceNil (Config.AlwaysTrust cfg) in
  (lookupBinary [Config.Binary cfg; "gpg2"; "gpg1"; "gpg"] w g, w).

(** The names [New] looks for, in the order it tries them. *)
Definition candidates (cfg : Config.t) : list string :=
  [Config.Binary cfg; "gpg2"; "gpg1"; "gpg"].

(** The scanning loop of [Version] over the tokens still to come. *)
Fixpoint versionLoop (lines : list string) : Outcome SemVersion :=
  match lines with
  | [] => Returns semverZero
  | text :: rest =>
      let line := TrimSpace text in
      if HasPrefix line "gpg " then
        let p := Fields line in
        match lastOf p with
        | None => Panics
        | Some f =>
            match semverParse f with
            | (_, Some _) => versionLoop rest
            | (sv, None) => Returns sv
            end
        end
      else versionLoop rest
  end.

(** [Version] will returns GPG version information. *)
Definition Version : M (Outcome SemVersion) :=
  let* g := receiver in
  let cmd := CommandContext (binary g) [ "--version" ] in
  let* '(out, err) := Output cmd in
  match err with
  | Some _ => ret (Returns semverZero)
  | None => ret (versionLoop (Scanner.Lines out))
  end.

Definition versionCmd (g : GPG) : Cmd :=
  mkCmd (binary g) [binary g; "--version"] None Buffer Unset.

(** A line that [Version] passes over: it does not start with ["gpg "]
    once trimmed, or its last field is no version. *)
Definition passedOver (text : string) : Prop :=
  HasPrefix (TrimSpace text) "gpg " = false \/
  exists f e, lastOf (Fields (TrimSpace text)) = Some f /\
              snd (semverParse f) = Some e.

(** The arguments that [Encrypt] puts together, said at once. *)
Definition encryptArgs (g : GPG) (path : string) (recipients : list string)
  : list string :=
  args g ++ [ "--encrypt"; "--output"; path ]
    ++ (if alwaysTrust g then [ "--trust-model=always" ] else [])
    ++ flat_map (fun r => [ "--recipient"; r ]) recipients.

End Construction.

(** Vocabulary for the statements about over-long lines. *)
Module LongLines.
Import GoString.

(** The length of [s], counted in binary. *)
Fixpoint lengthN (s : string) : N :=
  match s with
  | EmptyString => 0%N
  | String _ s' => N.succ (lengthN s')
  end.

(** No byte of [s] is a newline. *)
Fixpoint noNewline (s : string) : bool :=
  match s with
  | EmptyString => true
  | String c s' => negb (Ascii.eqb c LF) && noNewline s'
  end.

(** [s] is made of whole lines: it is empty or ends in a newline. *)
Definition wholeLines (s : string) : Prop :=
  s = EmptyString \/ exists p, s = p +:+ String LF EmptyString.

(** [s] doubled [n] times over. *)
Fixpoint doubled (n : nat) (s : string) : string :=
  match n with
  | O => s
  | S n' => doubled n' s +:+ doubled n' s
  end.

End LongLines.

(** A host for the scripted world: the programs it finds are listed with
    their paths; versions are kept as their text, and a text is a
    version when it starts with a digit. *)
Module StubHost.

Definition installed : list (string * string) :=
  [ ("gpg2", "/usr/bin/gpg2"); ("gpg", "/usr/bin/gpg") ].

#[export] Instance host : Host (Ext := Stub.external) := {|
  lookPath := fun name _ => Stub.find name installed;
  umask := fun _ w => w
|}.

Definition isDigit (c : ascii) : bool :=
  (48 <=? nat_of_ascii c)%nat && (nat_of_ascii c <=? 57)%nat.

#[export] Instance semver : Semver := {|
  SemVersion := string;
  semverZero := "0.0.0";
  semverParse := fun f =>
    match f with
    | String c _ =>
        if isDigit c then (f, None)
        else ("0.0.0", Some (Errorf "Invalid character(s) found in major number"))
    | EmptyString => ("0.0.0", Some (Errorf "Version string empty"))
    end
|}.

(** The output of [gpg --version], first lines. *)
Definition versionText : string :=
  "gpg (GnuPG) 2.1.18" +:+ Stub.nl +:+ "libgcrypt 1.7.6" +:+ Stub.nl.

Definition versioning : State := Stub.boot Stub.fresh (Stub.mkW [Stub.ok versionText] []).

(** A run that prints a line of 65536 bytes before the recipient line. *)
Definition longLine : string := LongLines.doubled 16 "a".

Definition dumpLong : string :=
  Stub.dumpTwo +:+ longLine +:+ Stub.nl +:+ Stub.dumpTwo.

(** [Stub.dumpTwo] without its last newline. *)
Definition dumpTwoBody : string :=
  ":pubkey enc packet: version=3 algo=1 keyid=AAAA" +:+ Stub.nl +:+
  "  :pubkey enc packet: version=3 algo=1 keyid=BBBB" +:+ Stub.nl +:+
  ":encrypted data packet:".

Definition inspectingLong : State := Stub.boot Stub.fresh (Stub.mkW [Stub.ok dumpLong] []).

(** A file system whose [MkdirAll] fails. *)
Definition readOnly : External := {|
  World := Stub.W;
  start := Stub.runScript;
  readFile := Stub.readStub;
  writeFile := fun _ _ _ w =>
    (Some (PathError "open" "store" "read-only file system"), w);
  mkdirAll := fun path _ w =>
    (Some (PathError "mkdir" path "read-only file system"), w);
  setenv := fun _ _ w => w;
  filepathDir := fun _ => "."
|}.


(** One run that succeeds without output. *)
Definition quiet : State := Stub.boot Stub.warm (Stub.mkW [Stub.ok EmptyString] []).

(** An export run that prints a key. *)
Definition exportingKey : State :=
  Stub.boot Stub.fresh (Stub.mkW [Stub.ok "-----BEGIN PGP PUBLIC KEY BLOCK-----"] []).

(** A configuration that names a binary the host does not have. *)
Definition config9 : Config.t := Config.mk "gpg9" [] true.

(** A wrapper on the read-only file system. *)
Definition stuck : State (Ext := readOnly) :=
  mkState (Ext := readOnly) Stub.fresh (Stub.mkW [] []) [].

End StubHost.

(* ===================================================================== *)
(** ** Properties of the string primitives *)
(* ===================================================================== *)

Module GoStringFacts.
Import GoString.

Lemma append_cons (x : ascii) (a b : string) :
  String x a +:+ b = String x (a +:+ b).
Proof. reflexivity. Qed.

Lemma append_nil_l (a : string) : EmptyString +:+ a = a.
Proof. reflexivity. Qed.

Lemma append_assoc (a b c : string) : (a +:+ b) +:+ c = a +:+ (b +:+ c).
Proof.
  induction a as [|x a IH]; [reflexivity|].
  rewrite !append_cons, IH. reflexivity.
Qed.


Lemma length_append (a b : string) :
  String.length (a +:+ b) = (String.length a + String.length b)%nat.
Proof.
  induction a as [|x a IH]; [reflexivity|].
  rewrite append_cons. cbn [String.length]. rewrite IH. reflexivity.
Qed.

Lemma substring_prefix (a b : string) :
  substring 0 (String.length a) (a +:+ b) = a.
Proof.
  induction a as [|x a IH].
  - rewrite append_nil_l. destruct b; reflexivity.
  - rewrite append_cons. cbn [String.length substring]. rewrite IH. reflexivity.
Qed.

Lemma HasPrefix_app (p t : string) : HasPrefix (p +:+ t) p = true.
Proof.
  induction p as [|b p IH]; simpl; [reflexivity|].
  rewrite Ascii.eqb_refl. exact IH.
Qed.

Lemma HasPrefix_inv (s p : string) :
  HasPrefix s p = true -> exists t, s = p +:+ t.
Proof.
  revert s. induction p as [|b p IH]; intros s H; simpl in *.
  - exists s. reflexivity.
  - destruct s as [|a s]; [discriminate|].
    destruct (Ascii.eqb a b) eqn:E; [|discriminate].
    apply Ascii.eqb_eq in E. subst a.
    destruct (IH _ H) as [t ->]. exists t. reflexivity.
Qed.

(** [HasPrefix] decides that [s] starts with [p]. *)
Lemma HasPrefix_spec (s p : string) :
  HasPrefix s p = true <-> exists t, s = p +:+ t.
Proof.
  split; [apply HasPrefix_inv|].
  intros [t ->]. apply HasPrefix_app.
Qed.

Lemma Contains_intro (a sub b : string) : Contains (a +:+ sub +:+ b) sub = true.
Proof.
  induction a as [|c a IH]; simpl.
  - destruct sub; simpl.
    + destruct b; reflexivity.
    + rewrite Ascii.eqb_refl, HasPrefix_app. reflexivity.
  - destruct (match sub with
              | EmptyString => true
              | String b0 p' => if Ascii.eqb c b0 then HasPrefix (a +:+ sub +:+ b) p' else false
              end) eqn:E.
    + destruct sub; simpl; rewrite ?E; reflexivity.
    + destruct sub; simpl; rewrite ?E; [discriminate|]. exact IH.
Qed.

Lemma Contains_inv (s sub : string) :
  Contains s sub = true -> exists a b, s = a +:+ sub +:+ b.
Proof.
  induction s as [|c s IH]; simpl; intros H.
  - destruct (HasPrefix EmptyString sub) eqn:E; [|discriminate].
    apply HasPrefix_inv in E. destruct E as [t E].
    exists EmptyString, t. exact E.
  - destruct (HasPrefix (String c s) sub) eqn:E.
    + apply HasPrefix_inv in E. destruct E as [t E].
      exists EmptyString, t. exact E.
    + destruct (IH H) as (a & b & ->).
      exists (String c a), b. reflexivity.
Qed.

(** [Contains] decides that [sub] occurs in [s]. *)
Lemma Contains_spec (s sub : string) :
  Contains s sub = true <-> exists a b, s = a +:+ sub +:+ b.
Proof.
  split; [apply Contains_inv|].
  intros (a & b & ->). apply Contains_intro.
Qed.

End GoStringFacts.

(* ===================================================================== *)
(** ** Properties of the scanner *)
(* ===================================================================== *)

Module ScannerFacts.
Import GoString GoStringFacts Scanner.





(** A line that fills the buffer before its newline ends the scan: no
    token for it, none for what follows. *)
Lemma scan_buffer_full (c : ascii) (s cur : string) :
  Ascii.eqb c LF = false ->
  scan (String c s) cur (MaxScanTokenSize - 1)%N = [].
Proof. intros H. cbn [scan]. rewrite H. reflexivity. Qed.

Example Lines_of_text :
  Lines ("one" +:+ String CR (String LF "two") +:+ String LF (String LF "three"))
  = ["one"; "two"; ""; "three"].
Proof. vm_compute. reflexivity. Qed.

End ScannerFacts.

(* ===================================================================== *)
(** ** Properties of the operations *)
(* ===================================================================== *)

Section Properties.
Context {Ext : External} {Par : Parsers}.
Import GoString.

(** Unfolds an operation down to the calls it makes to the outside. *)
Ltac step_through :=
  unfold GetRecipients, listKeys, ListPublicKeys, ListPrivateKeys,
    FindPublicKeys, FindPrivateKeys, Decrypt, Encrypt, ExportPublicKey,
    ImportPublicKey, listCmd, inspectCmd, decryptCmd, exportCmd, importCmd,
    encryptCmd, after,
    bind, ret, receiver, assign, Run, Output, CombinedOutput, ReadFile,
    WriteFile, MkdirAll, Setenv, emit, CommandContext, withStdin,
    withStdout, withStderr in *;
  cbn [Path Args Stdin Stdout Stderr gpg world trace fst snd
       binary args pubKeys privKeys alwaysTrust set_pubKeys set_privKeys
       isNil captured status] in *.

Lemma recipientStep_lineKeyid (recp : list string) (text : string) :
  recipientStep recp text = recp ++ lineKeyid text.
Proof.
  unfold recipientStep, lineKeyid.
  destruct (HasPrefix (TrimSpace text) pubkeyEncMarker); cbn [negb].
  - destruct (splitPacket (TrimSpace text) !! "keyid"); [reflexivity|].
    rewrite app_nil_r. reflexivity.
  - rewrite app_nil_r. reflexivity.
Qed.

Lemma recipientStep_keyidsOf (lines : list string) (recp : list string) :
  fold_left recipientStep lines recp = recp ++ keyidsOf lines.
Proof.
  revert recp. induction lines as [|text lines IH]; intros recp.
  - cbn [fold_left keyidsOf flat_map]. rewrite app_nil_r. reflexivity.
  - cbn [fold_left keyidsOf flat_map].
    rewrite IH, recipientStep_lineKeyid, <- app_assoc. reflexivity.
Qed.

Lemma keyidsOf_app (l1 l2 : list string) :
  keyidsOf (l1 ++ l2) = keyidsOf l1 ++ keyidsOf l2.
Proof. unfold keyidsOf. apply flat_map_app. Qed.



(** C7: [GetRecipients] returns an error exactly when the inspection run
    failed, and then the error of that run next to an empty list; a run
    that succeeded never yields an error. *)
Theorem GetRecipients_error_iff_run_failed
    (file : string) (st : State) (r : ProcResult) (w' : World) :
  start (inspectCmd (gpg st) file) (setenv "LANGUAGE" "C" (world st)) = (r, w') ->
  (snd (fst (GetRecipients file st)) <> None <-> status r <> None)
  /\ (forall e, status r = Some e ->
        fst (GetRecipients file st) = ([], Some e))
  /\ (snd (fst (GetRecipients file st)) = status r).
Proof.
  intros Hrun.
  assert (Herr : snd (fst (GetRecipients file st)) = status r).
  { step_through. rewrite Hrun. cbn [captured status].
    destruct (status r); reflexivity. }
  split; [rewrite Herr; reflexivity|].
  split; [|exact Herr].
  intros e He. step_through. rewrite Hrun. cbn [captured status].
  rewrite He. reflexivity.
Qed.

Lemma listKeys_failed_with_message
    (typ : string) (search : list string) (st : State)
    (r : ProcResult) (w' : World) (e : error) :
  start (listCmd (gpg st) typ search) (world st) = (r, w') ->
  status r = Some e ->
  Contains (captured r) noSecretKey = true ->
  listKeys typ search st =
    ((Slice [], None), after st w' [EvStart (listCmd (gpg st) typ search)]).
Proof.
  intros Hrun Herr Hmsg. step_through. rewrite Hrun. cbn [captured status].
  rewrite Herr, Hmsg. reflexivity.
Qed.

Lemma listKeys_result
    (typ : string) (search : list string) (st : State)
    (r : ProcResult) (w' : World) :
  start (listCmd (gpg st) typ search) (world st) = (r, w') ->
  listKeys typ search st =
    (match status r with
     | Some e =>
         if Contains (captured r) noSecretKey then (Slice [], None)
         else (Slice [], Some e)
     | None => (parseColons (captured r), None)
     end,
     after st w' [EvStart (listCmd (gpg st) typ search)]).
Proof.
  intros Hrun. step_through. rewrite Hrun. cbn [captured status].
  destruct (status r); [|reflexivity].
  destruct (Contains (captured r) noSecretKey); reflexivity.
Qed.

(** C3: when a secret-key listing run fails and the output it left
    contains ["secret key not available"], [listKeys] returns an empty
    key list and no error. *)
Theorem listKeys_no_secret_key_is_empty
    (search : list string) (st : State)
    (r : ProcResult) (w' : World) (e : error) :
  start (listCmd (gpg st) "secret" search) (world st) = (r, w') ->
  status r = Some e ->
  (exists a b, captured r = a +:+ noSecretKey +:+ b) ->
  listKeys "secret" search st =
    ((Slice [], None), after st w' [EvStart (listCmd (gpg st) "secret" search)]).
Proof.
  intros Hrun Herr Hmsg.
  apply (listKeys_failed_with_message _ _ _ _ _ e Hrun Herr).
  apply GoStringFacts.Contains_spec. exact Hmsg.
Qed.

(** C10: the empty-list case of [listKeys] looks at the output only: for
    any listing type, a failed run whose output contains
    ["secret key not available"] gives an empty key list and no error,
    and so does a failed public-key search. *)
Theorem listKeys_empty_case_ignores_type
    (typ : string) (search : list string) (st : State)
    (r : ProcResult) (w' : World) (e : error) :
  start (listCmd (gpg st) typ search) (world st) = (r, w') ->
  status r = Some e ->
  Contains (captured r) noSecretKey = true ->
  fst (listKeys typ search st) = (Slice [], None)
  /\ (typ = "public" -> fst (FindPublicKeys search st) = (Slice [], None)).
Proof.
  intros Hrun Herr Hmsg.
  rewrite (listKeys_failed_with_message _ _ _ _ _ e Hrun Herr Hmsg).
  split; [reflexivity|].
  intros ->. unfold FindPublicKeys.
  rewrite (listKeys_failed_with_message _ _ _ _ _ e Hrun Herr Hmsg).
  reflexivity.
Qed.

Lemma ListPublicKeys_miss (st : State) (r : ProcResult) (w' : World) :
  pubKeys (gpg st) = SliceNil ->
  start (listCmd (gpg st) "public" []) (world st) = (r, w') ->
  fst (ListPublicKeys st) =
    match status r with
    | Some e =>
        if Contains (captured r) noSecretKey then (Slice [], None)
        else (SliceNil, Some e)
    | None => (parseColons (captured r), None)
    end
  /\ trace (snd (ListPublicKeys st)) =
       trace st ++ [EvStart (listCmd (gpg st) "public" [])].
Proof.
  intros Hnil Hrun.
  pose proof (listKeys_result "public" [] st r w' Hrun) as HL.
  unfold ListPublicKeys, bind, receiver. rewrite Hnil. cbn [isNil].
  rewrite HL. unfold after, assign, ret.
  destruct (status r) as [e|].
  - destruct (Contains (captured r) noSecretKey); split; reflexivity.
  - split; reflexivity.
Qed.

Lemma ListPrivateKeys_miss (st : State) (r : ProcResult) (w' : World) :
  privKeys (gpg st) = SliceNil ->
  start (listCmd (gpg st) "secret" []) (world st) = (r, w') ->
  fst (ListPrivateKeys st) =
    match status r with
    | Some e =>
        if Contains (captured r) noSecretKey then (Slice [], None)
        else (SliceNil, Some e)
    | None => (parseColons (captured r), None)
    end
  /\ trace (snd (ListPrivateKeys st)) =
       trace st ++ [EvStart (listCmd (gpg st) "secret" [])].
Proof.
  intros Hnil Hrun.
  pose proof (listKeys_result "secret" [] st r w' Hrun) as HL.
  unfold ListPrivateKeys, bind, receiver. rewrite Hnil. cbn [isNil].
  rewrite HL. unfold after, assign, ret.
  destruct (status r) as [e|].
  - destruct (Contains (captured r) noSecretKey); split; reflexivity.
  - split; reflexivity.
Qed.

Lemma ImportPublicKey_success (filename : string) (st st' : State) :
ImportPublicKey filename st = (None, st') ->
exists buf r w',
  readFile filename (world st) = (buf, None) /\
  start (importCmd (gpg st) buf) (world st) = (r, w') /\
  status r = None /\
  st' = mkState (set_pubKeys (set_privKeys (gpg st) SliceNil) SliceNil) w'
          (trace st ++ [EvReadFile filename; EvStart (importCmd (gpg st) buf)]).
Proof.
  intros H. step_through.
  destruct (readFile filename (world st)) as [buf [e|]] eqn:Hread;
    [discriminate|].
  cbn [gpg world trace binary args] in H.
  destruct (start _ (world st)) as [r w'] eqn:Hrun.
  destruct (status r) as [e|] eqn:Hst; cbn [gpg world trace] in H;
    [discriminate|].
  exists buf, r, w'. repeat split; try assumption.
  inversion H. rewrite <- app_assoc. reflexivity.
Qed.

(** C2: after [ImportPublicKey] has returned without error both caches
    are nil, whatever they held before, and the next [ListPublicKeys]
    (or [ListPrivateKeys]) starts the listing command and answers from
    the output of that run. *)
Theorem ImportPublicKey_clears_both_caches
    (filename : string) (st st' : State) :
ImportPublicKey filename st = (None, st') ->
pubKeys (gpg st') = SliceNil /\ privKeys (gpg st') = SliceNil
/\ (forall r w'',
      start (listCmd (gpg st') "public" []) (world st') = (r, w'') ->
      fst (ListPublicKeys st') =
        match status r with
        | Some e =>
            if Contains (captured r) noSecretKey then (Slice [], None)
            else (SliceNil, Some e)
        | None => (parseColons (captured r), None)
        end
      /\ trace (snd (ListPublicKeys st')) =
           trace st' ++ [EvStart (listCmd (gpg st') "public" [])])
/\ (forall r w'',
      start (listCmd (gpg st') "secret" []) (world st') = (r, w'') ->
      fst (ListPrivateKeys st') =
        match status r with
        | Some e =>
            if Contains (captured r) noSecretKey then (Slice [], None)
            else (SliceNil, Some e)
        | None => (parseColons (captured r), None)
        end
      /\ trace (snd (ListPrivateKeys st')) =
           trace st' ++ [EvStart (listCmd (gpg st') "secret" [])]).
Proof.
  intros H.
  destruct (ImportPublicKey_success _ _ _ H) as (buf & r0 & w0 & _ & _ & _ & ->).
  split; [reflexivity|]. split; [reflexivity|].
  split; intros r w'' Hrun.
  - apply (ListPublicKeys_miss _ r w''); [reflexivity|exact Hrun].
  - apply (ListPrivateKeys_miss _ r w''); [reflexivity|exact Hrun].
Qed.

Lemma started_app (a b : list Event) : started (a ++ b) = started a ++ started b.
Proof. unfold started. apply flat_map_app. Qed.

Lemma written_app (a b : list Event) : written (a ++ b) = written a ++ written b.
Proof. unfold written. apply flat_map_app. Qed.

Lemma listKeys_never_nil
    (typ : string) (search : list string) (st : State) :
  (forall out, isNil (parseColons out) = false) ->
  isNil (fst (fst (listKeys typ search st))) = false.
Proof.
  intros Hparse.
  destruct (start (listCmd (gpg st) typ search) (world st)) as [r w'] eqn:Hrun.
  rewrite (listKeys_result _ _ _ _ _ Hrun). cbn [fst].
  destruct (status r); [destruct (Contains _ _); reflexivity|].
  cbn [fst]. apply Hparse.
Qed.

Lemma listKeys_trace (typ : string) (search : list string) (st : State) :
  started (trace (snd (listKeys typ search st))) =
    started (trace st) ++ [listCmd (gpg st) typ search]
  /\ gpg (snd (listKeys typ search st)) = gpg st.
Proof.
  destruct (start (listCmd (gpg st) typ search) (world st)) as [r w'] eqn:Hrun.
  rewrite (listKeys_result _ _ _ _ _ Hrun). cbn [snd after trace gpg].
  rewrite started_app. split; reflexivity.
Qed.

Lemma ListPrivateKeys_hit (st : State) :
  isNil (privKeys (gpg st)) = false ->
  ListPrivateKeys st = ((privKeys (gpg st), None), st).
Proof.
  intros H. unfold ListPrivateKeys, bind, receiver, ret. rewrite H. reflexivity.
Qed.

Lemma ListPublicKeys_hit (st : State) :
  isNil (pubKeys (gpg st)) = false ->
  ListPublicKeys st = ((pubKeys (gpg st), None), st).
Proof.
  intros H. unfold ListPublicKeys, bind, receiver, ret. rewrite H. reflexivity.
Qed.

Lemma ListPrivateKeys_stores (st st1 : State) (kl : KeyList) :
  (forall out, isNil (parseColons out) = false) ->
  ListPrivateKeys st = ((kl, None), st1) ->
  privKeys (gpg st1) = kl /\ isNil kl = false
  /\ (started (trace st1) = started (trace st) \/
      started (trace st1) = started (trace st) ++ [listCmd (gpg st) "secret" []]).
Proof.
  intros Hparse H.
  destruct (isNil (privKeys (gpg st))) eqn:Hnil.
  - pose proof (listKeys_never_nil "secret" [] st Hparse) as Hnn.
    pose proof (listKeys_trace "secret" [] st) as [Htr _].
    unfold ListPrivateKeys, bind, receiver in H. rewrite Hnil in H.
    destruct (listKeys "secret" [] st) as [[kl0 [e|]] st0];
      unfold ret, assign in H; cbn [fst snd] in *; [discriminate|].
    inversion H; subst. cbn [gpg privKeys set_privKeys trace].
    split; [reflexivity|]. split; [exact Hnn|]. right. exact Htr.
  - rewrite (ListPrivateKeys_hit _ Hnil) in H. inversion H; subst.
    split; [reflexivity|]. split; [exact Hnil|]. left. reflexivity.
Qed.

Lemma ListPublicKeys_stores (st st1 : State) (kl : KeyList) :
  (forall out, isNil (parseColons out) = false) ->
  ListPublicKeys st = ((kl, None), st1) ->
  pubKeys (gpg st1) = kl /\ isNil kl = false
  /\ (started (trace st1) = started (trace st) \/
      started (trace st1) = started (trace st) ++ [listCmd (gpg st) "public" []]).
Proof.
  intros Hparse H.
  destruct (isNil (pubKeys (gpg st))) eqn:Hnil.
  - pose proof (listKeys_never_nil "public" [] st Hparse) as Hnn.
    pose proof (listKeys_trace "public" [] st) as [Htr _].
    unfold ListPublicKeys, bind, receiver in H. rewrite Hnil in H.
    destruct (listKeys "public" [] st) as [[kl0 [e|]] st0];
      unfold ret, assign in H; cbn [fst snd] in *; [discriminate|].
    inversion H; subst. cbn [gpg pubKeys set_pubKeys trace].
    split; [reflexivity|]. split; [exact Hnn|]. right. exact Htr.
  - rewrite (ListPublicKeys_hit _ Hnil) in H. inversion H; subst.
    split; [reflexivity|]. split; [exact Hnil|]. left. reflexivity.
Qed.

Lemma iter_fixed {A} (f : A -> A) (a : A) (n : nat) :
  f a = a -> Nat.iter n f a = a.
Proof.
  intros H. induction n as [|n IH]; [reflexivity|].
  change (f (Nat.iter n f a) = a). rewrite IH. exact H.
Qed.

(** C4: with a colon-record parser that hands out allocated key lists, a
    [ListPrivateKeys] call that succeeds leaves its result in the cache
    after at most one run of the listing command, and every later call
    on the instance returns that same list, starts no process and leaves
    the state as it is; the same holds of [ListPublicKeys]. *)
Theorem list_all_twice_hits_cache (st st1 : State) (kl : KeyList) :
  (forall out, isNil (parseColons out) = false) ->
  (ListPrivateKeys st = ((kl, None), st1) ->
     privKeys (gpg st1) = kl
     /\ (started (trace st1) = started (trace st) \/
         started (trace st1) = started (trace st) ++ [listCmd (gpg st) "secret" []])
     /\ forall n,
          ListPrivateKeys (Nat.iter n (fun s => snd (ListPrivateKeys s)) st1)
          = ((kl, None), st1))
  /\ (ListPublicKeys st = ((kl, None), st1) ->
     pubKeys (gpg st1) = kl
     /\ (started (trace st1) = started (trace st) \/
         started (trace st1) = started (trace st) ++ [listCmd (gpg st) "public" []])
     /\ forall n,
          ListPublicKeys (Nat.iter n (fun s => snd (ListPublicKeys s)) st1)
          = ((kl, None), st1)).
Proof.
  intros Hparse. split; intros H.
  - destruct (ListPrivateKeys_stores _ _ _ Hparse H) as (Hkl & Hnn & Htr).
    split; [exact Hkl|]. split; [exact Htr|].
    assert (Hhit : ListPrivateKeys st1 = ((kl, None), st1)).
    { rewrite ListPrivateKeys_hit; rewrite Hkl; [reflexivity|exact Hnn]. }
    intros n. rewrite iter_fixed; [exact Hhit|]. rewrite Hhit. reflexivity.
  - destruct (ListPublicKeys_stores _ _ _ Hparse H) as (Hkl & Hnn & Htr).
    split; [exact Hkl|]. split; [exact Htr|].
    assert (Hhit : ListPublicKeys st1 = ((kl, None), st1)).
    { rewrite ListPublicKeys_hit; rewrite Hkl; [reflexivity|exact Hnn]. }
    intros n. rewrite iter_fixed; [exact Hhit|]. rewrite Hhit. reflexivity.
Qed.

(** C6: when the export run succeeds with no output at all,
    [ExportPublicKey] returns the error "Key not found" and writes no
    file; over all outcomes of the run, the target file is written
    exactly when the run succeeded with some output, and then with that
    output and mode 0600. *)
Theorem ExportPublicKey_empty_output_is_key_not_found
    (id filename : string) (st : State) (r : ProcResult) (w' : World) :
  start (exportCmd (gpg st) id) (world st) = (r, w') ->
  (status r = None -> captured r = EmptyString ->
     ExportPublicKey id filename st =
       (Some (Errorf "Key not found"),
        after st w' [EvStart (exportCmd (gpg st) id)]))
  /\ written (trace (snd (ExportPublicKey id filename st))) =
       written (trace st) ++
         match status r, captured r with
         | None, String _ _ => [(filename, captured r, fileMode)]
         | _, _ => []
         end.
Proof.
  intros Hrun. split.
  - intros Hok Hempty. step_through. rewrite Hrun. cbn [captured status].
    rewrite Hok, Hempty. reflexivity.
  - step_through. rewrite Hrun. cbn [captured status].
    destruct (status r) as [e|].
    + cbn [snd trace]. rewrite written_app. reflexivity.
    + destruct (captured r) as [|c out] eqn:Hout.
      * cbn [String.length Nat.ltb Nat.leb snd trace].
        rewrite written_app. reflexivity.
      * replace (String.length (String c out) <? 1)%nat with false
          by (cbn [String.length]; symmetry; apply Nat.ltb_ge; lia).
        cbn [gpg world trace].
        destruct (writeFile filename (String c out) fileMode w') as [e w2].
        cbn [snd trace]. rewrite !written_app, <- app_assoc. reflexivity.
Qed.

(** C9: when the import command fails, [ImportPublicKey] returns an
    error (the failure of the run with the command in front) and the
    wrapper, its two caches included, is as before; whenever
    [ImportPublicKey] returns an error the wrapper is unchanged. *)
Theorem ImportPublicKey_failure_keeps_caches
    (filename buf : string) (st : State) (r : ProcResult) (w' : World) (e : error) :
  readFile filename (world st) = (buf, None) ->
  start (importCmd (gpg st) buf) (world st) = (r, w') ->
  status r = Some e ->
  (exists msg, fst (ImportPublicKey filename st) = Some (Wrapf e msg))
  /\ pubKeys (gpg (snd (ImportPublicKey filename st))) = pubKeys (gpg st)
  /\ privKeys (gpg (snd (ImportPublicKey filename st))) = privKeys (gpg st)
  /\ (forall file' st0, fst (ImportPublicKey file' st0) <> None ->
        gpg (snd (ImportPublicKey file' st0)) = gpg st0).
Proof.
  intros Hread Hrun Herr.
  assert (Hgen : forall file' st0, fst (ImportPublicKey file' st0) <> None ->
                 gpg (snd (ImportPublicKey file' st0)) = gpg st0).
  { intros file' st0. step_through.
    destruct (readFile file' (world st0)) as [b0 [e0|]]; [reflexivity|].
    cbn [gpg world trace].
    destruct (start _ (world st0)) as [r0 w0].
    destruct (status r0); cbn [fst snd gpg]; [reflexivity|congruence]. }
  assert (Hres : exists msg, fst (ImportPublicKey filename st) = Some (Wrapf e msg)).
  { step_through. rewrite Hread. cbn [gpg world trace]. rewrite Hrun.
    rewrite Herr. eexists. reflexivity. }
  split; [exact Hres|].
  assert (Hg : gpg (snd (ImportPublicKey filename st)) = gpg st).
  { apply Hgen. destruct Hres as [msg ->]. discriminate. }
  rewrite Hg. repeat split; try reflexivity. exact Hgen.
Qed.

(** C8, as amended: a failed run is always surfaced as an error, except
    in the listing case of the message ["secret key not available"].
    [ExportPublicKey] and [ImportPublicKey] wrap the error of the run in
    a message that names the command; [Decrypt], [Encrypt],
    [GetRecipients], [listKeys] and the list and find operations return
    the error of the run as it is, with nothing added. *)
Theorem invocation_failure_is_surfaced (st : State) (e : error) :
  (forall path r w',
      start (decryptCmd (gpg st) path) (world st) = (r, w') ->
      status r = Some e ->
      snd (fst (Decrypt path st)) = Some e)
  /\ (forall typ search r w',
      start (listCmd (gpg st) typ search) (world st) = (r, w') ->
      status r = Some e ->
      Contains (captured r) noSecretKey = false ->
      snd (fst (listKeys typ search st)) = Some e
      /\ snd (fst (FindPublicKeys search st)) =
           snd (fst (listKeys "public" search st))
      /\ snd (fst (FindPrivateKeys search st)) =
           snd (fst (listKeys "secret" search st)))
  /\ (forall r w',
      pubKeys (gpg st) = SliceNil ->
      start (listCmd (gpg st) "public" []) (world st) = (r, w') ->
      status r = Some e ->
      Contains (captured r) noSecretKey = false ->
      snd (fst (ListPublicKeys st)) = Some e)
  /\ (forall r w',
      privKeys (gpg st) = SliceNil ->
      start (listCmd (gpg st) "secret" []) (world st) = (r, w') ->
      status r = Some e ->
      Contains (captured r) noSecretKey = false ->
      snd (fst (ListPrivateKeys st)) = Some e)
  /\ (forall file r w',
      start (inspectCmd (gpg st) file) (setenv "LANGUAGE" "C" (world st)) = (r, w') ->
      status r = Some e ->
      snd (fst (GetRecipients file st)) = Some e)
  /\ (forall path content recipients w1 r w',
      mkdirAll (filepathDir path) dirPerm (world st) = (None, w1) ->
      start (encryptCmd (gpg st) path content recipients) w1 = (r, w') ->
      status r = Some e ->
      fst (Encrypt path content recipients st) = Some e)
  /\ (forall id filename r w',
      start (exportCmd (gpg st) id) (world st) = (r, w') ->
      status r = Some e ->
      fst (ExportPublicKey id filename st) =
        Some (Wrapf e ("failed to run command '" +:+ binary (gpg st) +:+ " "
                         +:+ fmtArgs (Args (exportCmd (gpg st) id)) +:+ "'")))
  /\ (forall filename buf r w',
      readFile filename (world st) = (buf, None) ->
      start (importCmd (gpg st) buf) (world st) = (r, w') ->
      status r = Some e ->
      fst (ImportPublicKey filename st) =
        Some (Wrapf e ("failed to run command: '" +:+ binary (gpg st) +:+ " "
                         +:+ fmtArgs (Args (importCmd (gpg st) buf)) +:+ "'"))).
Proof.
  repeat match goal with |- _ /\ _ => split end.
  - intros path r w' Hrun Herr. step_through. rewrite Hrun. exact Herr.
  - intros typ search r w' Hrun Herr Hmsg.
    rewrite (listKeys_result _ _ _ _ _ Hrun), Herr, Hmsg.
    repeat split.
  - intros r w' Hnil Hrun Herr Hmsg.
    destruct (ListPublicKeys_miss _ _ _ Hnil Hrun) as [-> _].
    rewrite Herr, Hmsg. reflexivity.
  - intros r w' Hnil Hrun Herr Hmsg.
    destruct (ListPrivateKeys_miss _ _ _ Hnil Hrun) as [-> _].
    rewrite Herr, Hmsg. reflexivity.
  - intros file r w' Hrun Herr. step_through. rewrite Hrun.
    cbn [captured status]. rewrite Herr. reflexivity.
  - intros path content recipients w1 r w' Hmk Hrun Herr. step_through.
    rewrite Hmk. cbn [gpg world trace].
    destruct (alwaysTrust (gpg st)); rewrite Hrun; exact Herr.
  - intros id filename r w' Hrun Herr. step_through. rewrite Hrun.
    cbn [captured status]. rewrite Herr. reflexivity.
  - intros filename buf r w' Hread Hrun Herr. step_through. rewrite Hread.
    cbn [gpg world trace]. rewrite Hrun, Herr. reflexivity.
Qed.

End Properties.

(* ===================================================================== *)
(** ** Properties of the user-id patterns *)
(* ===================================================================== *)

Section UIDProperties.
Import GoString GoStringFacts UID.

(** Splits a conjunction into its parts and closes each from the
    context. *)
Ltac conjuncts :=
  repeat match goal with |- _ /\ _ => split end;
  solve [reflexivity | assumption].

Lemma consumed_app (a s' : string) : consumed (a +:+ s') s' = a.
Proof.
  unfold consumed. rewrite length_append.
  replace (String.length a + String.length s' - String.length s')%nat
    with (String.length a) by lia.
  apply substring_prefix.
Qed.

Lemma inner_parens (c : string) : inner ("(" +:+ c +:+ ")") = c.
Proof.
  unfold inner. rewrite append_cons, append_nil_l.
  cbn [String.length]. rewrite length_append. cbn [String.length].
  replace (S (String.length c + 1) - 2)%nat with (String.length c) by lia.
  cbn [substring]. apply substring_prefix.
Qed.

Lemma plus_sound {R} (k : class) (s : string) (kont : string -> option R) (res : R) :
  plus k s kont = Some res ->
  exists a s', s = a +:+ s' /\ runOf k a /\ kont s' = Some res.
Proof.
  induction s as [|c s IH]; cbn [plus]; [discriminate|].
  destruct (inClass k c) eqn:Hc; [|discriminate].
  destruct (plus k s kont) as [r|] eqn:Hmore.
  - intros [= ->]. destruct (IH eq_refl) as (a & s' & -> & [_ Hall] & Hk).
    exists (String c a), s'. split; [reflexivity|]. split; [|exact Hk].
    split; [discriminate|]. constructor; assumption.
  - intros Hk. exists (String c EmptyString), s.
    split; [reflexivity|]. split; [|exact Hk].
    split; [discriminate|]. constructor; [exact Hc|constructor].
Qed.

(** Whatever the matcher finds is a match in the sense of [Matches]. *)
Lemma exec_sound {R} (r : regex) :
  forall (s : string) (caps : list string)
         (kont : string -> list string -> option R) (res : R),
    exec r s caps kont = Some res ->
    exists a s' caps',
      s = a +:+ s' /\ Matches r a caps caps' /\ kont s' caps' = Some res.
Proof.
  induction r as [c|k|r1 IH1 r2 IH2|r IH]; intros s caps kont res H; cbn [exec] in H.
  - destruct s as [|c' s]; [discriminate|].
    destruct (Ascii.eqb c' c) eqn:E; [|discriminate].
    apply Ascii.eqb_eq in E. subst c'.
    exists (String c EmptyString), s, caps.
    split; [reflexivity|]. split; [constructor|exact H].
  - apply plus_sound in H. destruct H as (a & s' & -> & Hrun & Hk).
    exists a, s', caps. split; [reflexivity|]. split; [constructor; exact Hrun|exact Hk].
  - apply IH1 in H. destruct H as (a & s1 & c1 & -> & M1 & H).
    apply IH2 in H. destruct H as (b & s2 & c2 & -> & M2 & H).
    exists (a +:+ b), s2, c2. rewrite append_assoc.
    split; [reflexivity|]. split; [econstructor; eassumption|exact H].
  - apply IH in H. destruct H as (a & s' & c1 & -> & M & H).
    rewrite consumed_app in H.
    exists a, s', (c1 ++ [a]). split; [reflexivity|].
    split; [constructor; exact M|exact H].
Qed.

Lemma FindStringSubmatch_sound (r : regex) (s : string) (m : list string) :
  FindStringSubmatch r s = Some m ->
  exists pre a post caps,
    s = pre +:+ a +:+ post /\ Matches r a [] caps /\ m = a :: caps.
Proof.
  induction s as [|c s IH]; cbn [FindStringSubmatch].
  - destruct (exec r EmptyString [] _) as [m'|] eqn:E; [|discriminate].
    intros [= ->]. apply exec_sound in E.
    destruct E as (a & s' & caps & Hs & M & [= <-]).
    rewrite Hs, consumed_app.
    exists EmptyString, a, s', caps. conjuncts.
  - destruct (exec r (String c s) [] _) as [m'|] eqn:E.
    + intros [= ->]. apply exec_sound in E.
      destruct E as (a & s' & caps & Hs & M & [= <-]).
      rewrite Hs, consumed_app.
      exists EmptyString, a, s', caps. conjuncts.
    + intros H. destruct (IH H) as (pre & a & post & caps & -> & M & ->).
      exists (String c pre), a, post, caps. conjuncts.
Qed.

Lemma plus_complete {R} (k : class) (a s' : string) (kont : string -> option R) :
  runOf k a -> kont s' <> None -> plus k (a +:+ s') kont <> None.
Proof.
  intros [Hne Hall] Hk. induction a as [|c a IH]; [congruence|].
  rewrite append_cons. cbn [plus].
  cbn [list_ascii_of_string] in Hall. inversion Hall as [|? ? Hc Hall']; subst.
  rewrite Hc.
  destruct (plus k (a +:+ s') kont) as [r|] eqn:Hmore; [discriminate|].
  destruct a as [|c' a]; [exact Hk|].
  exfalso. apply IH; [discriminate|exact Hall'|reflexivity].
Qed.

(** Whenever a match exists in front of [s'] that the continuation
    accepts, the matcher finds one. *)
Lemma exec_complete {R} (r : regex) (a : string) (c0 c1 : list string) :
  Matches r a c0 c1 ->
  forall (s' : string) (kont : string -> list string -> option R),
    kont s' c1 <> None -> exec r (a +:+ s') c0 kont <> None.
Proof.
  induction 1 as [c c0|k a c0 Hrun|r1 r2 a b c0 c1 c2 M1 IH1 M2 IH2|r a c0 c1 M IH];
    intros s' kont Hk; cbn [exec].
  - rewrite append_cons, append_nil_l, Ascii.eqb_refl. exact Hk.
  - apply plus_complete; assumption.
  - rewrite append_assoc. apply IH1. apply IH2. exact Hk.
  - apply IH. rewrite consumed_app. exact Hk.
Qed.

Lemma FindStringSubmatch_complete (r : regex) (s : string) :
  HasMatch r s -> FindStringSubmatch r s <> None.
Proof.
  intros (pre & a & post & caps & -> & M).
  induction pre as [|c pre IH].
  - rewrite append_nil_l.
    assert (Hx : exec r (a +:+ post) []
                   (fun s' caps => Some (consumed (a +:+ post) s' :: caps)) <> None)
      by (apply (exec_complete _ _ _ _ M); discriminate).
    destruct (a +:+ post); cbn [FindStringSubmatch];
      destruct (exec r _ [] _); congruence.
  - rewrite append_cons. cbn [FindStringSubmatch].
    destruct (exec r _ [] _); [discriminate|exact IH].
Qed.

(** The search succeeds exactly on the strings that have a match. *)
Lemma FindStringSubmatch_finds (r : regex) (s : string) :
  FindStringSubmatch r s <> None <-> HasMatch r s.
Proof.
  split; [|apply FindStringSubmatch_complete].
  destruct (FindStringSubmatch r s) as [m|] eqn:E; [|congruence].
  intros _. apply FindStringSubmatch_sound in E.
  destruct E as (pre & a & post & caps & Hs & M & _).
  exists pre, a, post, caps. split; assumption.
Qed.

Lemma Matches_seq_inv (r1 r2 : regex) (a : string) (c0 c2 : list string) :
  Matches (Seq r1 r2) a c0 c2 ->
  exists a1 a2 c1, a = a1 +:+ a2 /\ Matches r1 a1 c0 c1 /\ Matches r2 a2 c1 c2.
Proof. intros M. inversion M; subst. eauto 6. Qed.

Lemma Matches_group_inv (r : regex) (a : string) (c0 c2 : list string) :
  Matches (Group r) a c0 c2 ->
  exists c1, c2 = c1 ++ [a] /\ Matches r a c0 c1.
Proof. intros M. inversion M; subst. eauto. Qed.

Lemma Matches_lit_inv (c : ascii) (a : string) (c0 c1 : list string) :
  Matches (Lit c) a c0 c1 -> a = String c EmptyString /\ c1 = c0.
Proof. intros M. inversion M; subst. auto. Qed.

Lemma Matches_plus_inv (k : class) (a : string) (c0 c1 : list string) :
  Matches (Plus k) a c0 c1 -> runOf k a /\ c1 = c0.
Proof. intros M. inversion M; subst. auto. Qed.

(** A match of [reUIDComment] is a name, white space, a comment in
    parentheses, white space and an address in angle brackets; its groups
    are the name, the comment with its parentheses, and the address. *)
Lemma reUIDComment_shape (a : string) (caps : list string) :
  Matches reUIDComment a [] caps ->
  exists n w1 c w2 e,
    a = n +:+ w1 +:+ "(" +:+ c +:+ ")" +:+ w2 +:+ "<" +:+ e +:+ ">"
    /\ caps = [n; "(" +:+ c +:+ ")"; e]
    /\ runOf (NoneOf ["("%char; "<"%char]) n /\ runOf Space w1
    /\ runOf (NoneOf [")"%char]) c /\ runOf Space w2
    /\ runOf (NoneOf [">"%char]) e.
Proof.
  unfold reUIDComment. intros M.
  apply Matches_seq_inv in M. destruct M as (n & a1 & k1 & -> & Mn & M).
  apply Matches_group_inv in Mn. destruct Mn as (k0 & -> & Mn).
  apply Matches_plus_inv in Mn. destruct Mn as [Hn ->].
  apply Matches_seq_inv in M. destruct M as (w1 & a2 & k2 & -> & Mw1 & M).
  apply Matches_plus_inv in Mw1. destruct Mw1 as [Hw1 ->].
  apply Matches_seq_inv in M. destruct M as (g & a3 & k3 & -> & Mg & M).
  apply Matches_group_inv in Mg. destruct Mg as (k4 & -> & Mg).
  apply Matches_seq_inv in Mg. destruct Mg as (lp & b1 & k5 & -> & Mlp & Mg).
  apply Matches_lit_inv in Mlp. destruct Mlp as [-> ->].
  apply Matches_seq_inv in Mg. destruct Mg as (c & rp & k6 & -> & Mc & Mrp).
  apply Matches_plus_inv in Mc. destruct Mc as [Hc ->].
  apply Matches_lit_inv in Mrp. destruct Mrp as [-> ->].
  apply Matches_seq_inv in M. destruct M as (w2 & a4 & k7 & -> & Mw2 & M).
  apply Matches_plus_inv in Mw2. destruct Mw2 as [Hw2 ->].
  apply Matches_seq_inv in M. destruct M as (lt & a5 & k8 & -> & Mlt & M).
  apply Matches_lit_inv in Mlt. destruct Mlt as [-> ->].
  apply Matches_seq_inv in M. destruct M as (e & gt & k9 & -> & Me & Mgt).
  apply Matches_group_inv in Me. destruct Me as (k10 & -> & Me).
  apply Matches_plus_inv in Me. destruct Me as [He ->].
  apply Matches_lit_inv in Mgt. destruct Mgt as [-> ->].
  exists n, w1, c, w2, e.
  cbn [app]. rewrite !append_assoc, !append_cons, !append_nil_l.
  conjuncts.
Qed.

(** A match of [reUID] is a name, white space and an address in angle
    brackets; its groups are the name and the address. *)
Lemma reUID_shape (a : string) (caps : list string) :
  Matches reUID a [] caps ->
  exists n w e,
    a = n +:+ w +:+ "<" +:+ e +:+ ">"
    /\ caps = [n; e]
    /\ runOf (NoneOf ["("%char; "<"%char]) n /\ runOf Space w
    /\ runOf (NoneOf [">"%char]) e.
Proof.
  unfold reUID. intros M.
  apply Matches_seq_inv in M. destruct M as (n & a1 & k1 & -> & Mn & M).
  apply Matches_group_inv in Mn. destruct Mn as (k0 & -> & Mn).
  apply Matches_plus_inv in Mn. destruct Mn as [Hn ->].
  apply Matches_seq_inv in M. destruct M as (w & a2 & k2 & -> & Mw & M).
  apply Matches_plus_inv in Mw. destruct Mw as [Hw ->].
  apply Matches_seq_inv in M. destruct M as (lt & a5 & k8 & -> & Mlt & M).
  apply Matches_lit_inv in Mlt. destruct Mlt as [-> ->].
  apply Matches_seq_inv in M. destruct M as (e & gt & k9 & -> & Me & Mgt).
  apply Matches_group_inv in Me. destruct Me as (k10 & -> & Me).
  apply Matches_plus_inv in Me. destruct Me as [He ->].
  apply Matches_lit_inv in Mgt. destruct Mgt as [-> ->].
  exists n, w, e.
  cbn [app]. rewrite !append_cons, !append_nil_l.
  conjuncts.
Qed.

(** C5: [parseUID] tries "name (comment) <email>" first and, when some
    part of the string matches it, takes name, comment and address from
    its three groups; failing that it tries "name <email>" and takes name
    and address, the comment empty; when no part of the string matches
    either pattern the whole string is the name and the other two fields
    are empty.  Being a total function, it never fails. *)
Theorem parseUID_patterns_in_order (uid : string) :
  (HasMatch reUIDComment uid ->
     exists pre n w1 c w2 e post,
       uid = pre +:+ (n +:+ w1 +:+ "(" +:+ c +:+ ")" +:+ w2 +:+ "<" +:+ e +:+ ">")
                 +:+ post
       /\ FindStringSubmatch reUIDComment uid =
            Some [n +:+ w1 +:+ "(" +:+ c +:+ ")" +:+ w2 +:+ "<" +:+ e +:+ ">";
                  n; "(" +:+ c +:+ ")"; e]
       /\ runOf (NoneOf ["("%char; "<"%char]) n
       /\ runOf (NoneOf [")"%char]) c
       /\ runOf (NoneOf [">"%char]) e
       /\ parseUID uid = mkIdentity n c e)
  /\ (~ HasMatch reUIDComment uid -> HasMatch reUID uid ->
     exists pre n w e post,
       uid = pre +:+ (n +:+ w +:+ "<" +:+ e +:+ ">") +:+ post
       /\ FindStringSubmatch reUID uid = Some [n +:+ w +:+ "<" +:+ e +:+ ">"; n; e]
       /\ runOf (NoneOf ["("%char; "<"%char]) n
       /\ runOf (NoneOf [">"%char]) e
       /\ parseUID uid = mkIdentity n EmptyString e)
  /\ (~ HasMatch reUIDComment uid -> ~ HasMatch reUID uid ->
     parseUID uid = mkIdentity uid EmptyString EmptyString).
Proof.
  unfold parseUID. split; [|split].
  - intros H1. apply FindStringSubmatch_finds in H1.
    destruct (FindStringSubmatch reUIDComment uid) as [m|] eqn:E1; [|congruence].
    apply FindStringSubmatch_sound in E1.
    destruct E1 as (pre & a & post & caps & Huid & M & ->).
    apply reUIDComment_shape in M.
    destruct M as (n & w1 & c & w2 & e & -> & -> & Hn & _ & Hc & _ & He).
    exists pre, n, w1, c, w2, e, post.
    rewrite inner_parens. conjuncts.
  - intros H1 H2. rewrite <- FindStringSubmatch_finds in H1, H2.
    destruct (FindStringSubmatch reUIDComment uid) as [m|];
      [exfalso; apply H1; discriminate|].
    destruct (FindStringSubmatch reUID uid) as [m|] eqn:E2; [|congruence].
    apply FindStringSubmatch_sound in E2.
    destruct E2 as (pre & a & post & caps & Huid & M & ->).
    apply reUID_shape in M.
    destruct M as (n & w & e & -> & -> & Hn & _ & He).
    exists pre, n, w, e, post. conjuncts.
  - intros H1 H2. rewrite <- FindStringSubmatch_finds in H1, H2.
    destruct (FindStringSubmatch reUIDComment uid) as [m|];
      [exfalso; apply H1; discriminate|].
    destruct (FindStringSubmatch reUID uid) as [m|];
      [exfalso; apply H2; discriminate|reflexivity].
Qed.

(** The examples of the specification. *)
Example parseUID_with_comment :
  parseUID "Jane Doe (work) <jane@example.com>"
  = mkIdentity "Jane Doe" "work" "jane@example.com".
Proof. vm_compute. reflexivity. Qed.

Example parseUID_without_comment :
  parseUID "Jane Doe <jane@example.com>"
  = mkIdentity "Jane Doe" EmptyString "jane@example.com".
Proof. vm_compute. reflexivity. Qed.

Example parseUID_garbled :
  parseUID "garbled-uid-no-brackets"
  = mkIdentity "garbled-uid-no-brackets" EmptyString EmptyString.
Proof. vm_compute. reflexivity. Qed.

End UIDProperties.

(* ===================================================================== *)
(** ** The statements at work on the scripted world *)
(* ===================================================================== *)

Section Scenarios.
Import GoString UID.


Lemma GetRecipients_error_iff_run_failed_witness :
  fst (GetRecipients "pass.gpg" Stub.failing) = ([], Some (ExitError 2)).
Proof.
  destruct (GetRecipients_error_iff_run_failed (Ext := Stub.external)
              (Par := Stub.parsers) "pass.gpg" Stub.failing
              (Stub.failed EmptyString 2) (Stub.mkW [] []) eq_refl)
    as (_ & H & _).
  apply H. reflexivity.
Defined.

Lemma listKeys_no_secret_key_is_empty_witness :
  fst (listKeys "secret" [] Stub.keyless) = (Slice [], None).
Proof.
  rewrite (listKeys_no_secret_key_is_empty (Ext := Stub.external)
             (Par := Stub.parsers) [] Stub.keyless
             (Stub.failed "gpg: error reading key: secret key not available" 2)
             (Stub.mkW [] []) (ExitError 2) eq_refl eq_refl
             (ex_intro _ "gpg: error reading key: "
                (ex_intro _ EmptyString eq_refl))).
  reflexivity.
Defined.

Lemma listKeys_empty_case_ignores_type_witness :
  fst (listKeys "public" [] Stub.keyless) = (Slice [], None).
Proof.
  destruct (listKeys_empty_case_ignores_type (Ext := Stub.external)
              (Par := Stub.parsers) "public" [] Stub.keyless
              (Stub.failed "gpg: error reading key: secret key not available" 2)
              (Stub.mkW [] []) (ExitError 2) eq_refl eq_refl eq_refl)
    as [H _].
  exact H.
Defined.

Lemma ImportPublicKey_clears_both_caches_witness :
  pubKeys (gpg Stub.importing) = Slice ["pub:old"]
  /\ fst (ListPublicKeys (snd (ImportPublicKey "key.asc" Stub.importing)))
     = (Slice ["pub:new"], None).
Proof.
  split; [reflexivity|].
  destruct (ImportPublicKey_clears_both_caches (Ext := Stub.external)
              (Par := Stub.parsers) "key.asc" Stub.importing
              (snd (ImportPublicKey "key.asc" Stub.importing)) eq_refl)
    as (_ & _ & H & _).
  destruct (H (Stub.ok ("pub:new" +:+ Stub.nl))
              (Stub.mkW [] [("key.asc", "KEY")]) eq_refl) as [Hres _].
  rewrite Hres. vm_compute. reflexivity.
Defined.

Lemma list_all_twice_hits_cache_witness :
  fst (ListPrivateKeys Stub.listing) = (Slice ["sec:u:4096"], None)
  /\ fst (ListPrivateKeys (snd (ListPrivateKeys Stub.listing)))
     = (Slice ["sec:u:4096"], None)
  /\ trace (snd (ListPrivateKeys (snd (ListPrivateKeys Stub.listing))))
     = [EvStart (listCmd Stub.fresh "secret" [])].
Proof.
  destruct (list_all_twice_hits_cache (Ext := Stub.external)
              (Par := Stub.parsers) Stub.listing
              (snd (ListPrivateKeys Stub.listing)) (Slice ["sec:u:4096"])
              (fun _ => eq_refl)) as [H _].
  destruct (H eq_refl) as (_ & _ & Hagain).
  specialize (Hagain 0%nat). cbn [Nat.iter nat_rect] in Hagain.
  rewrite Hagain. cbn [fst snd]. repeat split.
Defined.

Lemma ExportPublicKey_empty_output_is_key_not_found_witness :
  fst (ExportPublicKey "0xDEADBEEF" "key.asc" Stub.exportingNothing)
  = Some (Errorf "Key not found")
  /\ written (trace (snd (ExportPublicKey "0xDEADBEEF" "key.asc"
                            Stub.exportingNothing))) = [].
Proof.
  destruct (ExportPublicKey_empty_output_is_key_not_found (Ext := Stub.external)
              (Par := Stub.parsers) "0xDEADBEEF" "key.asc" Stub.exportingNothing
              (Stub.ok EmptyString) (Stub.mkW [] []) eq_refl) as [H Hw].
  split; [rewrite (H eq_refl eq_refl); reflexivity|].
  rewrite Hw. reflexivity.
Defined.

Lemma ImportPublicKey_failure_keeps_caches_witness :
  (exists msg, fst (ImportPublicKey "key.asc" Stub.rejecting)
               = Some (Wrapf (ExitError 2) msg))
  /\ pubKeys (gpg (snd (ImportPublicKey "key.asc" Stub.rejecting)))
     = Slice ["pub:old"]
  /\ privKeys (gpg (snd (ImportPublicKey "key.asc" Stub.rejecting)))
     = Slice ["sec:old"].
Proof.
  destruct (ImportPublicKey_failure_keeps_caches (Ext := Stub.external)
              (Par := Stub.parsers) "key.asc" "KEY" Stub.rejecting
              (Stub.failed EmptyString 2) (Stub.mkW [] [("key.asc", "KEY")])
              (ExitError 2) eq_refl eq_refl eq_refl)
    as (H & Hpub & Hpriv & _).
  split; [exact H|]. split; [exact Hpub|exact Hpriv].
Defined.

Lemma parseUID_patterns_in_order_witness :
  HasMatch UID.reUIDComment "Jane Doe (work) <jane@example.com>"
  /\ exists n c e,
       UID.parseUID "Jane Doe (work) <jane@example.com>" = UID.mkIdentity n c e
       /\ UID.FindStringSubmatch UID.reUIDComment "Jane Doe (work) <jane@example.com>"
          = Some ["Jane Doe (work) <jane@example.com>"; n; "(" +:+ c +:+ ")"; e].
Proof.
  assert (Hm : HasMatch UID.reUIDComment "Jane Doe (work) <jane@example.com>").
  { apply FindStringSubmatch_finds. vm_compute. discriminate. }
  split; [exact Hm|].
  destruct (parseUID_patterns_in_order "Jane Doe (work) <jane@example.com>")
    as [H _].
  destruct (H Hm) as (pre & n & w1 & c & w2 & e & post & _ & Hfind & _ & _ & _ & Hp).
  exists n, c, e. split; [exact Hp|].
  assert (Hrun : UID.FindStringSubmatch UID.reUIDComment
                   "Jane Doe (work) <jane@example.com>"
                 = Some ["Jane Doe (work) <jane@example.com>"; "Jane Doe";
                         "(work)"; "jane@example.com"])
    by (vm_compute; reflexivity).
  rewrite Hfind. rewrite Hrun in Hfind. injection Hfind as Hwhole _ _ _.
  rewrite <- Hwhole. reflexivity.
Defined.

Lemma invocation_failure_is_surfaced_witness :
  snd (fst (Decrypt "pass.gpg" Stub.failing)) = Some (ExitError 2).
Proof.
  destruct (invocation_failure_is_surfaced (Ext := Stub.external)
              (Par := Stub.parsers) Stub.failing (ExitError 2)) as [H _].
  apply (H "pass.gpg" (Stub.failed EmptyString 2) (Stub.mkW [] []));
    reflexivity.
Defined.

(** C8, as stated, fails: the run behind [Decrypt] exits with status 2,
    and the error that [Decrypt] returns is that exit error itself, with
    no context around it; the same goes for a public-key listing. *)
Lemma Decrypt_failure_carries_no_context :
  status (fst (start (decryptCmd (gpg Stub.failing) "pass.gpg")
                 (world Stub.failing))) = Some (ExitError 2)
  /\ snd (fst (Decrypt "pass.gpg" Stub.failing)) = Some (ExitError 2)
  /\ ~ failsWithContext (snd (fst (Decrypt "pass.gpg" Stub.failing)))
  /\ ~ failsWithContext (snd (fst (listKeys "public" [] Stub.failing))).
Proof.
  split; [reflexivity|]. split; [reflexivity|].
  split; intros (e & He & Hctx); vm_compute in He;
    injection He as <-; discriminate Hctx.
Qed.

(** The cache is invalidated by an import: the listing after it answers
    from the tool again, not from what was cached before. *)
Example listing_after_import_is_rebuilt :
  fst (ListPublicKeys Stub.importing) = (Slice ["pub:old"], None)
  /\ fst (ListPublicKeys (snd (ImportPublicKey "key.asc" Stub.importing)))
     = (Slice ["pub:new"], None).
Proof. vm_compute. split; reflexivity. Qed.

(** Repeated recipients are kept, in the order of the lines. *)
Example recipients_keep_duplicates :
  fst (GetRecipients "pass.gpg"
         (Stub.boot Stub.fresh
            (Stub.mkW [Stub.ok (Stub.dumpTwo +:+ Stub.dumpTwo)] [])))
  = (["AAAA"; "BBBB"; "AAAA"; "BBBB"], None).
Proof. vm_compute. reflexivity. Qed.

End Scenarios.

(* ===================================================================== *)
(** ** Further properties of the operations *)
(* ===================================================================== *)

Section MoreProperties.
Context {Ext : External} {Par : Parsers}.
Import GoString.

(** Unfolds an operation down to the calls it makes to the outside. *)
Ltac run_through :=
  unfold GetRecipients, listKeys, ListPublicKeys, ListPrivateKeys,
    FindPublicKeys, FindPrivateKeys, Decrypt, Encrypt, ExportPublicKey,
    ImportPublicKey, listCmd, inspectCmd, decryptCmd, exportCmd, importCmd,
    encryptCmd, after,
    bind, ret, receiver, assign, Run, Output, CombinedOutput, ReadFile,
    WriteFile, MkdirAll, Setenv, emit, CommandContext, withStdin,
    withStdout, withStderr in *;
  cbn [Path Args Stdin Stdout Stderr gpg world trace fst snd
       binary args pubKeys privKeys alwaysTrust set_pubKeys set_privKeys
       isNil captured status] in *.

Lemma listKeys_ignores_caches
    (typ : string) (search : list string) (g : GPG) (w : World)
    (tr : list Event) (pub priv : KeyList) :
  fst (listKeys typ search (mkState (set_pubKeys (set_privKeys g priv) pub) w tr))
  = fst (listKeys typ search (mkState g w tr)).
Proof.
  run_through. destruct (start _ w) as [r w']. cbn [fst].
  destruct (status r); [destruct (Contains _ _)|]; reflexivity.
Qed.

(** A search never looks at the caches and never fills them: whatever
    the wrapper has cached, [FindPublicKeys] and [FindPrivateKeys] start
    the listing command with the search terms, answer the same as with
    any other cache contents, and leave the wrapper as it was. *)
Theorem Find_bypasses_cache
    (search : list string) (g : GPG) (w : World) (tr : list Event)
    (pub priv : KeyList) :
  let st := mkState (set_pubKeys (set_privKeys g priv) pub) w tr in
  (fst (FindPublicKeys search st) = fst (FindPublicKeys search (mkState g w tr))
   /\ gpg (snd (FindPublicKeys search st)) = gpg st
   /\ started (trace (snd (FindPublicKeys search st)))
      = started tr ++ [listCmd g "public" search])
  /\ (fst (FindPrivateKeys search st) = fst (FindPrivateKeys search (mkState g w tr))
      /\ gpg (snd (FindPrivateKeys search st)) = gpg st
      /\ started (trace (snd (FindPrivateKeys search st)))
         = started tr ++ [listCmd g "secret" search]).
Proof.
  intros st. unfold FindPublicKeys, FindPrivateKeys. split.
  - split; [apply listKeys_ignores_caches|].
    destruct (listKeys_trace "public" search st) as [Htr Hg].
    split; [exact Hg|]. rewrite Htr. reflexivity.
  - split; [apply listKeys_ignores_caches|].
    destruct (listKeys_trace "secret" search st) as [Htr Hg].
    split; [exact Hg|]. rewrite Htr. reflexivity.
Qed.


(** The answer to "no secret key" is cached like any other: after a
    failed secret listing whose output has the message,
    [ListPrivateKeys] returns the empty list and keeps it, so that every
    later call returns the empty list again without running the tool. *)
Theorem ListPrivateKeys_caches_empty_answer
    (st : State) (r : ProcResult) (w' : World) (e : error) :
  privKeys (gpg st) = SliceNil ->
  start (listCmd (gpg st) "secret" []) (world st) = (r, w') ->
  status r = Some e ->
  Contains (captured r) noSecretKey = true ->
  fst (ListPrivateKeys st) = (Slice [], None)
  /\ forall n,
       ListPrivateKeys (Nat.iter n (fun s => snd (ListPrivateKeys s))
                          (snd (ListPrivateKeys st)))
       = ((Slice [], None), snd (ListPrivateKeys st)).
Proof.
  intros Hnil Hrun Herr Hmsg.
  assert (H1 : ListPrivateKeys st =
    ((Slice [], None),
     mkState (set_privKeys (gpg st) (Slice [])) w'
       (trace st ++ [EvStart (listCmd (gpg st) "secret" [])]))).
  { pose proof (listKeys_result "secret" [] st r w' Hrun) as HL.
    unfold ListPrivateKeys, bind, receiver. rewrite Hnil. cbn [isNil].
    rewrite HL, Herr, Hmsg. reflexivity. }
  rewrite H1. split; [reflexivity|]. cbn [snd].
  intros n.
  assert (Hhit : forall s1, s1 = mkState (set_privKeys (gpg st) (Slice [])) w'
                   (trace st ++ [EvStart (listCmd (gpg st) "secret" [])]) ->
                 ListPrivateKeys s1 = ((Slice [], None), s1)).
  { intros s1 ->. rewrite ListPrivateKeys_hit; reflexivity. }
  rewrite iter_fixed; [apply Hhit; reflexivity|].
  rewrite (Hhit _ eq_refl). reflexivity.
Qed.

(** When the key file cannot be read, [ImportPublicKey] returns the read
    error with the file name in front, starts no process and leaves the
    wrapper and its caches alone. *)
Theorem ImportPublicKey_unreadable_file
    (filename buf : string) (st : State) (e : error) :
  readFile filename (world st) = (buf, Some e) ->
  ImportPublicKey filename st =
    (Some (Wrapf e ("failed to read file '" +:+ filename +:+ "'")),
     after st (world st) [EvReadFile filename])
  /\ started (trace (snd (ImportPublicKey filename st))) = started (trace st).
Proof.
  intros Hread.
  assert (H : ImportPublicKey filename st =
    (Some (Wrapf e ("failed to read file '" +:+ filename +:+ "'")),
     after st (world st) [EvReadFile filename])).
  { run_through. rewrite Hread. reflexivity. }
  split; [exact H|]. rewrite H. cbn [snd after trace].
  rewrite started_app. cbn [started flat_map app]. apply app_nil_r.
Qed.

(** When the directory cannot be created, [Encrypt] returns that error
    with the path of the file in front and starts no process. *)
Theorem Encrypt_mkdir_failure
    (path content : string) (recipients : list string)
    (st : State) (e : error) (w1 : World) :
  mkdirAll (filepathDir path) dirPerm (world st) = (Some e, w1) ->
  Encrypt path content recipients st =
    (Some (Wrapf e ("failed to create dir '" +:+ path +:+ "'")),
     after st w1 [EvMkdirAll (filepathDir path) dirPerm])
  /\ started (trace (snd (Encrypt path content recipients st))) = started (trace st).
Proof.
  intros Hmk.
  assert (H : Encrypt path content recipients st =
    (Some (Wrapf e ("failed to create dir '" +:+ path +:+ "'")),
     after st w1 [EvMkdirAll (filepathDir path) dirPerm])).
  { run_through. rewrite Hmk. reflexivity. }
  split; [exact H|]. rewrite H. cbn [snd after trace].
  rewrite started_app. cbn [started flat_map app]. apply app_nil_r.
Qed.

Lemma recipient_flags (recipients : list string) (base : list string) :
  fold_left (fun a r => a ++ [ "--recipient"; r ]) recipients base
  = base ++ flat_map (fun r => [ "--recipient"; r ]) recipients.
Proof.
  revert base. induction recipients as [|r rs IH]; intros base; cbn [fold_left flat_map].
  - rewrite app_nil_r. reflexivity.
  - rewrite IH, <- app_assoc. reflexivity.
Qed.

(** Once the directory is there, [Encrypt] runs one command and returns
    its error as it is.  The command has the configured arguments, then
    [--encrypt --output path], then [--trust-model=always] exactly when
    the wrapper always trusts, then [--recipient r] for every recipient
    in the order given (none for an empty list); the content is its
    standard input. *)
Theorem Encrypt_runs_one_command
    (path content : string) (recipients : list string)
    (st : State) (w1 : World) (r : ProcResult) (w' : World) :
  mkdirAll (filepathDir path) dirPerm (world st) = (None, w1) ->
  start (mkCmd (binary (gpg st))
           (binary (gpg st) :: encryptArgs (gpg st) path recipients)
           (Some content) OsStdout OsStderr) w1 = (r, w') ->
  Encrypt path content recipients st =
    (status r,
     after st w'
       [EvMkdirAll (filepathDir path) dirPerm;
        EvStart (mkCmd (binary (gpg st))
                   (binary (gpg st) :: encryptArgs (gpg st) path recipients)
                   (Some content) OsStdout OsStderr)]).
Proof.
  unfold encryptArgs. intros Hmk Hrun. run_through. rewrite Hmk.
  cbn [gpg world trace]. rewrite recipient_flags.
  destruct (alwaysTrust (gpg st)); cbn [app] in Hrun |- *;
    rewrite <- ?app_assoc in *; cbn [app] in Hrun |- *.
  all: rewrite Hrun; reflexivity.
Qed.

(** What the operations leave alone.  [Decrypt], [Encrypt],
    [GetRecipients], [ExportPublicKey] and the two searches never change
    the wrapper; [ListPublicKeys] changes nothing but the public cache,
    [ListPrivateKeys] nothing but the secret cache, and
    [ImportPublicKey] nothing but the two caches. *)
Theorem wrapper_frame
    (st : State) (path content id filename file : string)
    (recipients search : list string) :
  gpg (snd (Decrypt path st)) = gpg st
  /\ gpg (snd (Encrypt path content recipients st)) = gpg st
  /\ gpg (snd (GetRecipients file st)) = gpg st
  /\ gpg (snd (ExportPublicKey id filename st)) = gpg st
  /\ gpg (snd (FindPublicKeys search st)) = gpg st
  /\ gpg (snd (FindPrivateKeys search st)) = gpg st
  /\ (exists kl, gpg (snd (ListPublicKeys st)) = set_pubKeys (gpg st) kl)
  /\ (exists kl, gpg (snd (ListPrivateKeys st)) = set_privKeys (gpg st) kl)
  /\ (exists pub priv,
        gpg (snd (ImportPublicKey filename st))
        = set_pubKeys (set_privKeys (gpg st) priv) pub).
Proof.
  repeat match goal with |- _ /\ _ => split end.
  - run_through. destruct (start _ (world st)). reflexivity.
  - run_through. destruct (mkdirAll _ _ (world st)) as [[e|] w1]; [reflexivity|].
    cbn [gpg world trace]. destruct (start _ w1). reflexivity.
  - run_through. destruct (start _ _) as [r w']. cbn [captured status].
    destruct (status r); reflexivity.
  - run_through. destruct (start _ (world st)) as [r w']. cbn [captured status].
    destruct (status r); [reflexivity|].
    destruct (String.length (captured r) <? 1)%nat; [reflexivity|].
    cbn [gpg world trace]. destruct (writeFile _ _ _ w'). reflexivity.
  - apply listKeys_trace.
  - apply listKeys_trace.
  - destruct (gpg st) as [b a pub priv t] eqn:Hg.
    destruct (isNil pub) eqn:Hnil.
    + unfold ListPublicKeys, bind, receiver. rewrite Hg. cbn [pubKeys]. rewrite Hnil.
      pose proof (listKeys_trace "public" [] st) as [_ Hsame].
      destruct (listKeys "public" [] st) as [[kl [e|]] st0]; cbn [snd] in *.
      * exists pub. unfold ret. cbn [snd]. rewrite Hsame, Hg. reflexivity.
      * exists kl. unfold ret, assign. cbn [snd gpg]. rewrite Hsame, Hg. reflexivity.
    + exists pub. rewrite ListPublicKeys_hit by (rewrite Hg; exact Hnil).
      cbn [snd]. rewrite Hg. reflexivity.
  - destruct (gpg st) as [b a pub priv t] eqn:Hg.
    destruct (isNil priv) eqn:Hnil.
    + unfold ListPrivateKeys, bind, receiver. rewrite Hg. cbn [privKeys]. rewrite Hnil.
      pose proof (listKeys_trace "secret" [] st) as [_ Hsame].
      destruct (listKeys "secret" [] st) as [[kl [e|]] st0]; cbn [snd] in *.
      * exists priv. unfold ret. cbn [snd]. rewrite Hsame, Hg. reflexivity.
      * exists kl. unfold ret, assign. cbn [snd gpg]. rewrite Hsame, Hg. reflexivity.
    + exists priv. rewrite ListPrivateKeys_hit by (rewrite Hg; exact Hnil).
      cbn [snd]. rewrite Hg. reflexivity.
  - destruct (gpg st) as [b a pub priv t] eqn:Hg. run_through.
    destruct (readFile filename (world st)) as [buf [e|]].
    + exists pub, priv. cbn [snd gpg]. rewrite Hg. reflexivity.
    + cbn [gpg world trace]. destruct (start _ (world st)) as [r w'].
      destruct (status r).
      * exists pub, priv. cbn [snd gpg]. rewrite Hg. reflexivity.
      * exists SliceNil, SliceNil. cbn [snd gpg]. rewrite Hg. reflexivity.
Qed.

Lemma lineKeyid_short (text : string) : (length (lineKeyid text) <= 1)%nat.
Proof.
  unfold lineKeyid. destruct (HasPrefix _ _); [|cbn; lia].
  destruct (splitPacket _ !! "keyid"); cbn; lia.
Qed.

Lemma keyidsOf_length (lines : list string) :
  (length (keyidsOf lines) <= length lines)%nat.
Proof.
  induction lines as [|text lines IH]; [reflexivity|].
  cbn [keyidsOf flat_map]. fold (keyidsOf lines).
  rewrite length_app. pose proof (lineKeyid_short text). cbn [length]. lia.
Qed.

Lemma lineKeyid_In (text keyid : string) :
  In keyid (lineKeyid text) <->
  HasPrefix (TrimSpace text) pubkeyEncMarker = true /\
  splitPacket (TrimSpace text) !! "keyid" = Some keyid.
Proof.
  unfold lineKeyid. destruct (HasPrefix _ _).
  - destruct (splitPacket _ !! "keyid") as [k|]; cbn [In].
    + split; [intros [->|[]]; split; reflexivity|].
      intros [_ [= ->]]. left. reflexivity.
    + split; [intros []|intros [_ [=]]].
  - cbn [In]. split; [intros []|intros [[=] _]].
Qed.

(** Every recipient that [GetRecipients] returns is the [keyid] of one of
    the scanned lines that begin with the marker, every such [keyid] is
    returned, and there are never more recipients than lines. *)
Theorem GetRecipients_only_marker_lines
    (file : string) (st : State) (r : ProcResult) (w' : World) :
  start (inspectCmd (gpg st) file) (setenv "LANGUAGE" "C" (world st)) = (r, w') ->
  (length (fst (fst (GetRecipients file st)))
   <= length (Scanner.Lines (captured r)))%nat
  /\ (status r = None ->
      forall keyid,
        In keyid (fst (fst (GetRecipients file st))) <->
        exists text,
          In text (Scanner.Lines (captured r)) /\
          HasPrefix (TrimSpace text) pubkeyEncMarker = true /\
          splitPacket (TrimSpace text) !! "keyid" = Some keyid).
Proof.
  intros Hrun.
  assert (Hres : fst (fst (GetRecipients file st)) =
                 match status r with
                 | Some _ => []
                 | None => keyidsOf (Scanner.Lines (captured r))
                 end).
  { run_through. rewrite Hrun. cbn [captured status].
    destruct (status r); [reflexivity|]. cbn [fst].
    rewrite recipientStep_keyidsOf. reflexivity. }
  rewrite Hres. split.
  - destruct (status r); [cbn; lia|apply keyidsOf_length].
  - intros ->. intros keyid. unfold keyidsOf. rewrite in_flat_map.
    split; intros (text & Hin & H); exists text; (split; [exact Hin|]);
      apply lineKeyid_In; exact H.
Qed.

(** [ExportPublicKey] returns no error exactly when the run succeeded,
    printed at least one byte, and the file could be written. *)
Theorem ExportPublicKey_succeeds_iff
    (id filename : string) (st : State) (r : ProcResult) (w' : World)
    (we : option error) (w2 : World) :
  start (exportCmd (gpg st) id) (world st) = (r, w') ->
  writeFile filename (captured r) fileMode w' = (we, w2) ->
  (fst (ExportPublicKey id filename st) = None <->
   status r = None /\ captured r <> EmptyString /\ we = None).
Proof.
  intros Hrun Hwrite. run_through. rewrite Hrun. cbn [captured status].
  destruct (status r) as [e|].
  - cbn [fst]. split; [discriminate|intros [[=] _]].
  - destruct (captured r) as [|c out].
    + cbn [String.length Nat.ltb Nat.leb fst].
      split; [discriminate|intros (_ & H & _); congruence].
    + replace (String.length (String c out) <? 1)%nat with false
        by (cbn [String.length]; symmetry; apply Nat.ltb_ge; lia).
      cbn [gpg world trace]. rewrite Hwrite. cbn [fst].
      split; [intros ->; repeat split; discriminate|intros (_ & _ & H); exact H].
Qed.

End MoreProperties.

(* ===================================================================== *)
(** ** Lines that do not fit the scanner *)
(* ===================================================================== *)

Section LongLineProperties.
Context {Ext : External} {Par : Parsers}.
Import GoString GoStringFacts Scanner LongLines.

Lemma scan_line_too_long (a : string) :
  forall (rest cur : string) (n : N),
    noNewline a = true ->
    (n < MaxScanTokenSize)%N ->
    (MaxScanTokenSize <= n + lengthN a)%N ->
    scan (a +:+ rest) cur n = [].
Proof.
  induction a as [|c a IH]; intros rest cur n Hnl Hn Hlen.
  - cbn [lengthN] in Hlen. lia.
  - rewrite append_cons. cbn [scan]. cbn [noNewline] in Hnl.
    apply andb_true_iff in Hnl. destruct Hnl as [Hc Hnl].
    apply negb_true_iff in Hc. rewrite Hc.
    destruct (N.leb_spec MaxScanTokenSize (n + 1)); [reflexivity|].
    apply IH; [exact Hnl|lia|]. cbn [lengthN] in Hlen. lia.
Qed.

Lemma scan_whole_lines (p : string) :
  forall (X cur : string) (n : N),
    scan X EmptyString 0%N = [] ->
    scan ((p +:+ String LF EmptyString) +:+ X) cur n
    = scan (p +:+ String LF EmptyString) cur n.
Proof.
  induction p as [|c p IH]; intros X cur n HX.
  - rewrite !append_nil_l, append_cons, append_nil_l. cbn [scan].
    rewrite Ascii.eqb_refl, HX. reflexivity.
  - rewrite !append_cons. cbn [scan].
    destruct (Ascii.eqb c LF); [rewrite IH by exact HX; reflexivity|].
    destruct (MaxScanTokenSize <=? n + 1)%N; [reflexivity|].
    apply IH. exact HX.
Qed.

(** The scan ends without a word at the first line that does not fit the
    scanner's buffer: when the dump is whole lines, then 65536 bytes or
    more without a newline, then anything, [GetRecipients] returns the
    recipients of the whole lines before it and no error; what the long
    line and the lines after it say is dropped. *)
Theorem GetRecipients_stops_at_long_line
    (file : string) (st : State) (r : ProcResult) (w' : World)
    (head a rest : string) :
  start (inspectCmd (gpg st) file) (setenv "LANGUAGE" "C" (world st)) = (r, w') ->
  status r = None ->
  captured r = head +:+ a +:+ rest ->
  wholeLines head ->
  noNewline a = true ->
  (MaxScanTokenSize <= lengthN a)%N ->
  fst (GetRecipients file st) = (keyidsOf (Scanner.Lines head), None).
Proof.
  intros Hrun Hok Hout Hhead Hnl Hlen.
  assert (Hlong : scan (a +:+ rest) EmptyString 0%N = [])
    by (apply scan_line_too_long; [exact Hnl|reflexivity|lia]).
  assert (Hlines : Scanner.Lines (captured r) = Scanner.Lines head).
  { rewrite Hout. unfold Scanner.Lines. destruct Hhead as [->|[p ->]].
    - rewrite append_nil_l. exact Hlong.
    - apply scan_whole_lines. exact Hlong. }
  unfold GetRecipients, bind, ret, receiver, Setenv, CombinedOutput, emit,
    CommandContext, withStdout, withStderr, inspectCmd in *.
  cbn [Path Args Stdin Stdout Stderr gpg world trace fst snd binary] in *.
  rewrite Hrun. cbn [captured status]. rewrite Hok. cbn [fst].
  rewrite recipientStep_keyidsOf, Hlines. reflexivity.
Qed.

End LongLineProperties.

(* ===================================================================== *)
(** ** Properties of [New] and [Version] *)
(* ===================================================================== *)

Section ConstructionProperties.
Context {Ext : External} {Par : Parsers} {Hst : Host} {Sem : Semver}.
Import GoString GoStringFacts GoFields.


Lemma lookupBinary_none (names : list string) (w : World) (g : GPG) :
  (forall b, In b names -> lookPath b w = None) ->
  lookupBinary names w g = g.
Proof.
  induction names as [|b names IH]; intros H; cbn [lookupBinary]; [reflexivity|].
  rewrite (H b (or_introl eq_refl)). apply IH.
  intros x Hx. apply H. right. exact Hx.
Qed.

Lemma lookupBinary_first
    (l1 l2 : list string) (b p : string) (w : World) (g : GPG) :
  (forall x, In x l1 -> lookPath x w = None) ->
  lookPath b w = Some p ->
  lookupBinary (l1 ++ b :: l2) w g = set_binary g p.
Proof.
  induction l1 as [|x l1 IH]; intros Hnone Hb; cbn [app lookupBinary].
  - rewrite Hb. reflexivity.
  - rewrite (Hnone x (or_introl eq_refl)). apply IH; [|exact Hb].
    intros y Hy. apply Hnone. right. exact Hy.
Qed.

(** [New] takes the binary from the first of the configured name,
    [gpg2], [gpg1] and [gpg] that [exec.LookPath] finds, in that order,
    as the path found; a configured binary that is found always wins, and
    when none of the four is found the binary is the bare name [gpg]. *)
Theorem New_picks_first_found (cfg : Config.t) (w : World) :
  ((forall b, In b (candidates cfg) -> lookPath b (umask 63 w) = None) ->
   binary (fst (New cfg w)) = "gpg")
  /\ (forall l1 b l2 p,
        candidates cfg = l1 ++ b :: l2 ->
        (forall x, In x l1 -> lookPath x (umask 63 w) = None) ->
        lookPath b (umask 63 w) = Some p ->
        binary (fst (New cfg w)) = p)
  /\ (forall p,
        lookPath (Config.Binary cfg) (umask 63 w) = Some p ->
        binary (fst (New cfg w)) = p).
Proof.
  unfold New. cbn [fst]. fold (candidates cfg).
  split; [|split].
  - intros Hnone. rewrite (lookupBinary_none _ _ _ Hnone). reflexivity.
  - intros l1 b l2 p Hsplit Hnone Hb. rewrite Hsplit.
    rewrite (lookupBinary_first _ _ _ _ _ _ Hnone Hb). reflexivity.
  - intros p Hp. unfold candidates. cbn [lookupBinary]. rewrite Hp. reflexivity.
Qed.


Lemma fieldsLoop_some (s : string) :
  forall (skip : nat) (f : string), fieldsLoop s skip (Some f) <> [].
Proof.
  induction s as [|c s IH]; intros skip f; cbn [fieldsLoop flush]; [discriminate|].
  destruct skip as [|k]; [|apply IH].
  destruct (spaceWidth (String c s)); [apply IH|discriminate].
Qed.

Lemma lastOf_some (p : list string) : p <> [] -> lastOf p <> None.
Proof.
  induction p as [|x p IH]; intros H; [congruence|].
  destruct p as [|y p]; cbn [lastOf]; [discriminate|].
  apply IH. discriminate.
Qed.

Lemma fieldsLoop_step (c : ascii) (s : string) (cur : option string) :
  fieldsLoop (String c s) 0 cur =
  match spaceWidth (String c s) with
  | O => fieldsLoop s 0 (extend cur c)
  | S k => flush cur ++ fieldsLoop s k None
  end.
Proof. reflexivity. Qed.

Lemma spaceWidth_g (s : string) : spaceWidth (String "g" s) = 0%nat.
Proof. vm_compute. reflexivity. Qed.

(** A line that starts with ["gpg "] has a field, so its last field is
    there to be taken. *)
Lemma Fields_of_gpg_line (line : string) :
  HasPrefix line "gpg " = true -> lastOf (Fields line) <> None.
Proof.
  intros H. apply HasPrefix_inv in H. destruct H as [t ->].
  apply lastOf_some. unfold Fields.
  change ("gpg " +:+ t) with (String "g" (String "p" (String "g" (String " " t)))).
  rewrite fieldsLoop_step, spaceWidth_g. cbn [extend]. apply fieldsLoop_some.
Qed.

Lemma versionLoop_returns (lines : list string) : versionLoop lines <> Panics.
Proof.
  induction lines as [|text lines IH]; cbn [versionLoop]; [discriminate|].
  destruct (HasPrefix (TrimSpace text) "gpg ") eqn:Hp; [|exact IH].
  destruct (lastOf (Fields (TrimSpace text))) as [f|] eqn:Hl.
  - destruct (semverParse f) as [sv [e|]]; [exact IH|discriminate].
  - exfalso. exact (Fields_of_gpg_line _ Hp Hl).
Qed.

(** [Version] never panics: the index [len(p)-1] it takes of the fields
    of a line is always in range, because a line that starts with
    ["gpg "] has at least one field. *)
Theorem Version_never_panics (st : State) : fst (Version st) <> Panics.
Proof.
  unfold Version, bind, ret, receiver, Output. cbn [fst snd].
  destruct (start _ (world st)) as [r w']. cbn [captured status fst].
  destruct (status r); cbn [fst]; [discriminate|apply versionLoop_returns].
Qed.

Lemma versionLoop_passed_over (lines : list string) :
  (forall text, In text lines -> passedOver text) ->
  versionLoop lines = Returns semverZero.
Proof.
  induction lines as [|text lines IH]; intros H; cbn [versionLoop]; [reflexivity|].
  assert (Hrest : versionLoop lines = Returns semverZero)
    by (apply IH; intros t Ht; apply H; right; exact Ht).
  destruct (H text (or_introl eq_refl)) as [Hp|(f & e & Hf & He)].
  - rewrite Hp. exact Hrest.
  - destruct (HasPrefix (TrimSpace text) "gpg "); [|exact Hrest].
    rewrite Hf. destruct (semverParse f) as [sv [e'|]]; [exact Hrest|].
    cbn [snd] in He. discriminate.
Qed.

(** [Version] reports no error of its own: when the run fails, or when
    every line of the output is passed over (it does not start with
    ["gpg "], or its last field is no version), the result is the zero
    version.  The command is the binary with [--version] alone, without
    the configured arguments. *)
Theorem Version_zero_when_unknown
    (st : State) (r : ProcResult) (w' : World) :
  start (versionCmd (gpg st)) (world st) = (r, w') ->
  (status r <> None \/
   forall text, In text (Scanner.Lines (captured r)) -> passedOver text) ->
  Version st =
    (Returns semverZero, after st w' [EvStart (versionCmd (gpg st))]).
Proof.
  intros Hrun H.
  unfold Version, versionCmd, bind, ret, receiver, Output, CommandContext,
    withStdout, emit, after in *.
  cbn [Path Args Stdin Stdout Stderr] in *. rewrite Hrun.
  cbn [captured status].
  destruct (status r) as [e|]; [reflexivity|].
  destruct H as [H|H]; [congruence|].
  rewrite (versionLoop_passed_over _ H). reflexivity.
Qed.

Lemma versionLoop_first
    (l1 l2 : list string) (text f : string) (sv : SemVersion) :
  (forall t, In t l1 -> passedOver t) ->
  HasPrefix (TrimSpace text) "gpg " = true ->
  lastOf (Fields (TrimSpace text)) = Some f ->
  semverParse f = (sv, None) ->
  versionLoop (l1 ++ text :: l2) = Returns sv.
Proof.
  intros Hover Hp Hf Hsv. induction l1 as [|t l1 IH]; cbn [app versionLoop].
  - rewrite Hp, Hf, Hsv. reflexivity.
  - assert (Hrest : versionLoop (l1 ++ text :: l2) = Returns sv)
      by (apply IH; intros x Hx; apply Hover; right; exact Hx).
    destruct (Hover t (or_introl eq_refl)) as [Ht|(f' & e & Hf' & He)].
    + rewrite Ht. exact Hrest.
    + destruct (HasPrefix (TrimSpace t) "gpg "); [|exact Hrest].
      rewrite Hf'. destruct (semverParse f') as [sv' [e'|]]; [exact Hrest|].
      cbn [snd] in He. discriminate.
Qed.

(** When the run succeeds, [Version] returns what [semver.Parse] makes
    of the last field of the first line that starts with ["gpg "] and
    whose last field parses; lines before it are passed over, lines
    after it are not looked at. *)
Theorem Version_first_parsable_line
    (st : State) (r : ProcResult) (w' : World)
    (l1 l2 : list string) (text f : string) (sv : SemVersion) :
  start (versionCmd (gpg st)) (world st) = (r, w') ->
  status r = None ->
  Scanner.Lines (captured r) = l1 ++ text :: l2 ->
  (forall t, In t l1 -> passedOver t) ->
  HasPrefix (TrimSpace text) "gpg " = true ->
  lastOf (Fields (TrimSpace text)) = Some f ->
  semverParse f = (sv, None) ->
  Version st = (Returns sv, after st w' [EvStart (versionCmd (gpg st))]).
Proof.
  intros Hrun Hok Hlines Hover Hp Hf Hsv.
  unfold Version, versionCmd, bind, ret, receiver, Output, CommandContext,
    withStdout, emit, after in *.
  cbn [Path Args Stdin Stdout Stderr] in *. rewrite Hrun.
  cbn [captured status]. rewrite Hok, Hlines.
  rewrite (versionLoop_first _ _ _ _ _ Hover Hp Hf Hsv). reflexivity.
Qed.

End ConstructionProperties.

(* ===================================================================== *)
(** ** How the two user-id patterns relate *)
(* ===================================================================== *)

Section PatternProperties.
Import GoString GoStringFacts UID.

Lemma list_ascii_append (a b : string) :
  list_ascii_of_string (a +:+ b) = list_ascii_of_string a ++ list_ascii_of_string b.
Proof.
  induction a as [|x a IH]; [reflexivity|].
  rewrite append_cons. cbn [list_ascii_of_string app]. rewrite IH. reflexivity.
Qed.

Lemma reUID_intro (n w e : string) :
  runOf (NoneOf ["("%char; "<"%char]) n ->
  runOf Space w ->
  runOf (NoneOf [">"%char]) e ->
  Matches reUID (n +:+ w +:+ "<" +:+ e +:+ ">") [] [n; e].
Proof.
  intros Hn Hw He. unfold reUID.
  apply (MSeq _ _ n _ [] [n] [n; e]);
    [exact (MGroup _ _ [] [] (MPlus _ _ _ Hn))|].
  apply (MSeq _ _ w _ [n] [n] [n; e]); [exact (MPlus _ _ _ Hw)|].
  apply (MSeq _ _ "<" (e +:+ ">") [n] [n] [n; e]); [constructor|].
  apply (MSeq _ _ e ">" [n] [n; e] [n; e]);
    [exact (MGroup _ _ [n] [n] (MPlus _ _ _ He))|constructor].
Qed.

Lemma HasMatch_reUID_shape (s : string) :
  HasMatch reUID s ->
  exists pre n w e post, s = pre +:+ (n +:+ w +:+ "<" +:+ e +:+ ">") +:+ post.
Proof.
  intros (pre & a & post & caps & -> & M). apply reUID_shape in M.
  destruct M as (n & w & e & -> & _). exists pre, n, w, e, post. reflexivity.
Qed.

Lemma reUIDComment_has_reUID (s : string) :
  HasMatch reUIDComment s -> HasMatch reUID s.
Proof.
  intros (pre & a & post & caps & -> & M).
  apply reUIDComment_shape in M.
  destruct M as (n & w1 & c & w2 & e & -> & _ & _ & _ & _ & Hw2 & He).
  exists (pre +:+ n +:+ w1 +:+ "(" +:+ c), (")" +:+ w2 +:+ "<" +:+ e +:+ ">"),
    post, [")"; e].
  split.
  - rewrite !append_assoc, !append_cons, !append_nil_l. reflexivity.
  - apply reUID_intro; [|exact Hw2|exact He].
    split; [discriminate|]. repeat constructor.
Qed.

(** Whatever has a match for [reUIDComment] has a match for [reUID] as
    well: the closing parenthesis of the comment can stand for the name.
    The pattern with the comment has to be tried first for the comment
    to be seen at all. *)
Theorem reUIDComment_match_is_reUID_match (s : string) :
  HasMatch reUIDComment s ->
  HasMatch reUID s
  /\ FindStringSubmatch reUIDComment s <> None
  /\ FindStringSubmatch reUID s <> None.
Proof.
  intros H. pose proof (reUIDComment_has_reUID s H) as H2.
  split; [exact H2|]. split; apply FindStringSubmatch_finds; assumption.
Qed.

(** A string without ["<"], or without [">"], matches neither pattern:
    both searches come back empty. *)
Theorem patterns_need_brackets (s : string) :
  ~ In "<"%char (list_ascii_of_string s) \/
  ~ In ">"%char (list_ascii_of_string s) ->
  FindStringSubmatch reUIDComment s = None
  /\ FindStringSubmatch reUID s = None.
Proof.
  intros Hno.
  assert (H2 : ~ HasMatch reUID s).
  { intros H. apply HasMatch_reUID_shape in H.
    destruct H as (pre & n & w & e & post & ->).
    destruct Hno as [Hno|Hno]; apply Hno;
      rewrite !list_ascii_append, !in_app_iff;
      cbn [list_ascii_of_string In]; auto 20. }
  assert (H1 : ~ HasMatch reUIDComment s).
  { intros H. apply H2. apply reUIDComment_has_reUID. exact H. }
  rewrite <- FindStringSubmatch_finds in H1, H2.
  split.
  - destruct (FindStringSubmatch reUIDComment s); [|reflexivity].
    exfalso. apply H1. discriminate.
  - destruct (FindStringSubmatch reUID s); [|reflexivity].
    exfalso. apply H2. discriminate.
Qed.

End PatternProperties.

(* ===================================================================== *)
(** ** The further statements at work on the scripted world *)
(* ===================================================================== *)

Section MoreScenarios.
Import GoString GoFields UID LongLines.


Lemma ListPrivateKeys_caches_empty_answer_witness :
  fst (ListPrivateKeys Stub.keyless) = (Slice [], None)
  /\ fst (ListPrivateKeys (snd (ListPrivateKeys Stub.keyless))) = (Slice [], None).
Proof.
  destruct (ListPrivateKeys_caches_empty_answer (Ext := Stub.external)
              (Par := Stub.parsers) Stub.keyless
              (Stub.failed "gpg: error reading key: secret key not available" 2)
              (Stub.mkW [] []) (ExitError 2) eq_refl eq_refl eq_refl eq_refl)
    as [H1 H2].
  split; [exact H1|].
  specialize (H2 0%nat). cbn [Nat.iter nat_rect] in H2. rewrite H2. reflexivity.
Defined.

Lemma ImportPublicKey_unreadable_file_witness :
  fst (ImportPublicKey "missing.asc" Stub.failing)
  = Some (Wrapf (PathError "open" "missing.asc" "no such file or directory")
            "failed to read file 'missing.asc'")
  /\ started (trace (snd (ImportPublicKey "missing.asc" Stub.failing))) = [].
Proof.
  destruct (ImportPublicKey_unreadable_file (Ext := Stub.external)
              (Par := Stub.parsers) "missing.asc" EmptyString Stub.failing
              (PathError "open" "missing.asc" "no such file or directory") eq_refl)
    as [H1 H2].
  rewrite H2, H1. split; reflexivity.
Defined.

Lemma Encrypt_mkdir_failure_witness :
  fst (Encrypt (Ext := StubHost.readOnly) "store/pass.gpg" "secret" ["0xAAAA"]
         StubHost.stuck)
  = Some (Wrapf (PathError "mkdir" "." "read-only file system")
            "failed to create dir 'store/pass.gpg'").
Proof.
  destruct (Encrypt_mkdir_failure (Ext := StubHost.readOnly)
              (Par := Stub.parsers) "store/pass.gpg" "secret" ["0xAAAA"]
              StubHost.stuck (PathError "mkdir" "." "read-only file system")
              (Stub.mkW [] []) eq_refl)
    as [H _].
  rewrite H. reflexivity.
Defined.

Lemma Encrypt_runs_one_command_witness :
  started (trace (snd (Encrypt "store/pass.gpg" "secret" ["0xAAAA"; "0xBBBB"]
                         StubHost.quiet)))
  = [mkCmd "gpg"
       ("gpg" :: defaultArgs ++
          ["--encrypt"; "--output"; "store/pass.gpg";
           "--recipient"; "0xAAAA"; "--recipient"; "0xBBBB"])
       (Some "secret") OsStdout OsStderr].
Proof.
  rewrite (Encrypt_runs_one_command (Ext := Stub.external) (Par := Stub.parsers)
             "store/pass.gpg" "secret" ["0xAAAA"; "0xBBBB"] StubHost.quiet
             (Stub.mkW [Stub.ok EmptyString] []) (Stub.ok EmptyString)
             (Stub.mkW [] []) eq_refl eq_refl).
  reflexivity.
Defined.

Lemma GetRecipients_only_marker_lines_witness :
  In "BBBB" (fst (fst (GetRecipients "pass.gpg" Stub.inspecting)))
  /\ (length (fst (fst (GetRecipients "pass.gpg" Stub.inspecting))) <= 3)%nat.
Proof.
  destruct (GetRecipients_only_marker_lines (Ext := Stub.external)
              (Par := Stub.parsers) "pass.gpg" Stub.inspecting
              (Stub.ok Stub.dumpTwo) (Stub.mkW [] []) eq_refl)
    as [Hlen Hin].
  split; [|exact Hlen].
  apply (Hin eq_refl).
  exists ("  :pubkey enc packet: version=3 algo=1 keyid=BBBB").
  split; [right; left; reflexivity|]. split; vm_compute; reflexivity.
Defined.

Lemma ExportPublicKey_succeeds_iff_witness :
  fst (ExportPublicKey "0xAAAA" "key.asc" StubHost.exportingKey) = None.
Proof.
  apply (ExportPublicKey_succeeds_iff (Ext := Stub.external)
           (Par := Stub.parsers) "0xAAAA" "key.asc" StubHost.exportingKey
           (Stub.ok "-----BEGIN PGP PUBLIC KEY BLOCK-----") (Stub.mkW [] [])
           None
           (Stub.mkW [] [("key.asc", "-----BEGIN PGP PUBLIC KEY BLOCK-----")])
           eq_refl eq_refl).
  split; [reflexivity|]. split; [discriminate|reflexivity].
Defined.

Lemma GetRecipients_stops_at_long_line_witness :
  fst (GetRecipients "pass.gpg" StubHost.inspectingLong) = (["AAAA"; "BBBB"], None).
Proof.
  assert (Hwhole : wholeLines Stub.dumpTwo)
    by (right; exists StubHost.dumpTwoBody; vm_compute; reflexivity).
  assert (Hnl : noNewline StubHost.longLine = true) by (vm_compute; reflexivity).
  assert (Hlen : (Scanner.MaxScanTokenSize <= lengthN StubHost.longLine)%N)
    by (vm_compute; discriminate).
  rewrite (GetRecipients_stops_at_long_line (Ext := Stub.external)
             (Par := Stub.parsers) "pass.gpg" StubHost.inspectingLong
             (Stub.ok StubHost.dumpLong) (Stub.mkW [] [])
             Stub.dumpTwo StubHost.longLine (Stub.nl +:+ Stub.dumpTwo)
             eq_refl eq_refl eq_refl Hwhole Hnl Hlen).
  vm_compute. reflexivity.
Defined.


Lemma New_picks_first_found_witness :
  binary (fst (New (Par := Stub.parsers) (Hst := StubHost.host)
                 StubHost.config9 (Stub.mkW [] [])))
  = "/usr/bin/gpg2".
Proof.
  destruct (New_picks_first_found (Ext := Stub.external) (Par := Stub.parsers)
              (Hst := StubHost.host) StubHost.config9 (Stub.mkW [] []))
    as (_ & H & _).
  apply (H ["gpg9"] "gpg2" ["gpg1"; "gpg"] "/usr/bin/gpg2"); [reflexivity| |reflexivity].
  intros x [<-|[]]. reflexivity.
Defined.

Lemma Version_never_panics_witness :
  fst (Version (Sem := StubHost.semver) StubHost.versioning) <> Panics.
Proof.
  exact (Version_never_panics (Ext := Stub.external) (Par := Stub.parsers)
           (Sem := StubHost.semver) StubHost.versioning).
Defined.

Lemma Version_zero_when_unknown_witness :
  fst (Version (Sem := StubHost.semver) Stub.failing) = Returns "0.0.0".
Proof.
  assert (Hfail : status (Stub.failed EmptyString 2) <> None)
    by (vm_compute; discriminate).
  rewrite (Version_zero_when_unknown (Ext := Stub.external) (Par := Stub.parsers)
             (Sem := StubHost.semver) Stub.failing (Stub.failed EmptyString 2)
             (Stub.mkW [] []) eq_refl (or_introl Hfail)).
  reflexivity.
Defined.

Lemma Version_first_parsable_line_witness :
  fst (Version (Sem := StubHost.semver) StubHost.versioning) = Returns "2.1.18".
Proof.
  rewrite (Version_first_parsable_line (Ext := Stub.external)
             (Par := Stub.parsers) (Sem := StubHost.semver) StubHost.versioning
             (Stub.ok StubHost.versionText) (Stub.mkW [] [])
             [] ["libgcrypt 1.7.6"] "gpg (GnuPG) 2.1.18" "2.1.18" "2.1.18"
             eq_refl eq_refl eq_refl (fun t H => match H with end)
             eq_refl eq_refl eq_refl).
  reflexivity.
Defined.

Lemma reUIDComment_match_is_reUID_match_witness :
  FindStringSubmatch reUID "Jane Doe (work) <jane@example.com>" <> None.
Proof.
  assert (Hm : HasMatch reUIDComment "Jane Doe (work) <jane@example.com>").
  { apply FindStringSubmatch_finds. vm_compute. discriminate. }
  destruct (reUIDComment_match_is_reUID_match
              "Jane Doe (work) <jane@example.com>" Hm) as (_ & _ & H).
  exact H.
Defined.

Lemma patterns_need_brackets_witness :
  FindStringSubmatch reUIDComment "garbled-uid-no-brackets" = None
  /\ FindStringSubmatch reUID "garbled-uid-no-brackets" = None.
Proof.
  apply patterns_need_brackets. left. cbn [list_ascii_of_string In].
  intros H. repeat (destruct H as [H|H]; [discriminate H|]). exact H.
Defined.

End MoreScenarios.
